(** * sherab-custom-plugin: ID-verification approval

    A shallow embedding of

    - [user_extension/management/commands/approve_id_verification.py]
      (the [approve_id_verification] management command), and
    - [user_extension/signals/handlers.py] (the [post_save] receivers),

    together with the properties of their behavioural contract.

    Python code that talks to the database, writes to the console and may
    raise is embedded in a small monad [M]: it threads the database
    ([World]), collects in order the observable effects ([event]) and ends
    either with a value or with a raised exception. *)

From Stdlib Require Import ZArith String Ascii List Lia.
From stdpp Require Import base tactics option list numbers strings pretty sorting.

Local Open Scope string_scope.
Local Open Scope list_scope.
Local Open Scope Z_scope.

(** ** Data model *)

(** [django.contrib.auth.models.User]: the two columns the code reads. *)
Record User := { id : Z; username : string }.

(** [lms.djangoapps.verify_student.models.ManualVerification]: the columns
    the code filters on or sets. [created_at] is filled in by the database
    layer when the row is created. *)
Record ManualVerification :=
  { user_id : Z; status : string; created_at : Z }.

(** Modelled from the spec: [ExtendedUserProfile] (declared in
    [user_extension/models.py]) is the one-to-one companion record of a user
    account; only the reference to its user is kept. *)
Record ExtendedUserProfile := { profile_user_id : Z }.

(** The persistent store. [tick] counts the calls made to the database
    layer so far; it is the time the environment sees. *)
Record World := {
  users : list User;
  verifications : list ManualVerification;
  profiles : list ExtendedUserProfile;
  tick : nat }.

(** Instances of Python's [Exception]. [exc_text e] is [str(e)]. *)
Inductive exc_class :=
| UserDoesNotExist
| UserMultipleObjectsReturned
| ValueError
| OtherException (name : string).

Record Exception := { exc_cls : exc_class; exc_text : string }.

Global Instance exc_class_eq_dec : EqDecision exc_class.
Proof. solve_decision. Defined.

(** Console styles of [self.style]; [Plain] is an unstyled write. *)
Inductive style := Plain | ERROR | WARNING | SUCCESS.

Inductive level := INFO | LOG_ERROR.

(** Observable effects, in the order they happen. A database insert is
    recorded with the row it tries to add and with the exception it raised,
    if any. *)
Inductive event :=
| Stdout (st : style) (text : string)
| LogRecord (lvl : level) (text : string)
| MVCreate (row : ManualVerification) (res : option Exception)
| ProfileCreate (row : ExtendedUserProfile) (res : option Exception).

(** Calls to the database layer, as the environment distinguishes them. *)
Inductive orm_op :=
| OpRead
| OpCreateMV (uid : Z)
| OpCreateProfile (uid : Z).

(** The environment of a run: which database calls raise ([fault], by the
    time of the call), the policy cutoff returned by
    [earliest_allowed_verification_date()] and the clock that stamps new
    rows. All three are external to the repository and left arbitrary. *)
Record Env := {
  fault : nat → orm_op → option Exception;
  cutoff : nat → Z;
  clock : nat → Z }.

(** ** The effect monad *)

Inductive result (A : Type) :=
| Ok (a : A)
| Raise (e : Exception).
Arguments Ok {A} a.
Arguments Raise {A} e.

Record Run (A : Type) := MkRun {
  final : World;
  emitted : list event;
  outcome : result A }.
Arguments MkRun {A} _ _ _.
Arguments final {A} _.
Arguments emitted {A} _.
Arguments outcome {A} _.

Definition M (A : Type) : Type := World → Run A.

Definition ret {A} (a : A) : M A := λ w, MkRun w [] (Ok a).

Definition bind {A B} (m : M A) (k : A → M B) : M B := λ w,
  match m w with
  | MkRun w1 out1 (Ok a) =>
      match k a w1 with
      | MkRun w2 out2 r => MkRun w2 (out1 ++ out2) r
      end
  | MkRun w1 out1 (Raise e) => MkRun w1 out1 (Raise e)
  end.

Definition raise {A} (e : Exception) : M A := λ w, MkRun w [] (Raise e).

(** [try: body except ...]: [handler e] is [None] when no [except] clause
    matches [e], which then propagates. *)
Definition try_except {A} (body : M A) (handler : Exception → option (M A)) : M A := λ w,
  match body w with
  | MkRun w1 out1 (Ok a) => MkRun w1 out1 (Ok a)
  | MkRun w1 out1 (Raise e) =>
      match handler e with
      | Some h =>
          match h w1 with
          | MkRun w2 out2 r => MkRun w2 (out1 ++ out2) r
          end
      | None => MkRun w1 out1 (Raise e)
      end
  end.

Definition emit (ev : event) : M unit := λ w, MkRun w [ev] (Ok tt).

Global Instance M_ret : MRet M := @ret.
Global Instance M_bind : MBind M := λ A B k m, bind m k.

(** A [for] loop over a list that updates the local variables [s]. *)
Fixpoint for_each {A S} (xs : list A) (body : A → S → M S) (s : S) : M S :=
  match xs with
  | [] => mret s
  | x :: xs' => s' ← body x s; for_each xs' body s'
  end.

(** ** Python built-ins *)

Definition dquote : string := String "034"%char EmptyString.
Definition newline : string := String "010"%char EmptyString.

(** [len(range(start, stop, step))] for a non-zero step. *)
Definition range_length (start stop step : Z) : Z :=
  if (0 <? step) && (start <? stop) then (stop - start - 1) `div` step + 1
  else if (step <? 0) && (stop <? start) then (start - stop - 1) `div` (- step) + 1
  else 0.

(** [range(start, stop, step)], which raises [ValueError] on a zero step. *)
Definition range (start stop step : Z) : M (list Z) :=
  if step =? 0 then
    raise {| exc_cls := ValueError; exc_text := "range() arg 3 must not be zero" |}
  else
    mret ((λ k, start + k * step) <$> seqZ 0 (range_length start stop step)).

(** Bound of a slice: negative indices count from the end, and every index
    is clamped to the list. *)
Definition slice_index (len i : Z) : Z :=
  if i <? 0 then Z.max 0 (i + len) else Z.min i len.

(** [l[lo:hi]]. *)
Definition slice {A} (l : list A) (lo hi : Z) : list A :=
  let n := Z.of_nat (length l) in
  let lo' := slice_index n lo in
  let hi' := slice_index n hi in
  take (Z.to_nat (hi' - lo')) (drop (Z.to_nat lo') l).

(** Truth value of an optional string ([None] and [""] are false). *)
Definition truthy (s : option string) : bool :=
  match s with
  | Some (String _ _) => true
  | _ => false
  end.

(** ** The database layer *)

Definition bump (w : World) : World :=
  {| users := users w; verifications := verifications w;
     profiles := profiles w; tick := S (tick w) |}.

Definition id_le (u v : User) : Prop := id u ≤ id v.
Global Instance id_le_dec : RelDecision id_le.
Proof. intros u v. unfold id_le. apply _. Defined.

(** [.order_by("id")]. *)
Definition order_by_id (l : list User) : list User := merge_sort id_le l.

Section Program.
Context (env : Env).

(** Evaluation of a read-only query [q]. *)
Definition query {A} (q : World → A) : M A := λ w,
  match fault env (tick w) OpRead with
  | Some e => MkRun (bump w) [] (Raise e)
  | None => MkRun (bump w) [] (Ok (q w))
  end.

(** [earliest_allowed_verification_date()]. *)
Definition earliest_allowed_verification_date : M Z :=
  λ w, MkRun w [] (Ok (cutoff env (tick w))).

(** [ManualVerification.objects.create(user=user, status="approved")]. *)
Definition ManualVerification_objects_create (user : User) (st : string) : M unit := λ w,
  let row := {| user_id := id user; status := st; created_at := clock env (tick w) |} in
  match fault env (tick w) (OpCreateMV (id user)) with
  | Some e => MkRun (bump w) [MVCreate row (Some e)] (Raise e)
  | None =>
      MkRun {| users := users w; verifications := verifications w ++ [row];
               profiles := profiles w; tick := S (tick w) |}
            [MVCreate row None] (Ok tt)
  end.

(** [ExtendedUserProfile.objects.create(user=instance)]. *)
Definition ExtendedUserProfile_objects_create (user : User) : M unit := λ w,
  let row := {| profile_user_id := id user |} in
  match fault env (tick w) (OpCreateProfile (id user)) with
  | Some e => MkRun (bump w) [ProfileCreate row (Some e)] (Raise e)
  | None =>
      MkRun {| users := users w; verifications := verifications w;
               profiles := profiles w ++ [row]; tick := S (tick w) |}
            [ProfileCreate row None] (Ok tt)
  end.

(** [User.objects.get(username=name)]. *)
Definition User_objects_get (name : string) : M User :=
  rows ← query (λ w, filter (λ u, username u = name) (users w));
  match rows with
  | [u] => mret u
  | [] => raise {| exc_cls := UserDoesNotExist;
                   exc_text := "User matching query does not exist." |}
  | _ => raise {| exc_cls := UserMultipleObjectsReturned;
                  exc_text := "get() returned more than one User" |}
  end.

(** The rows of [ManualVerification.objects.filter(status="approved",
    created_at__gte=earliest_date)]. *)
Definition approved_since (earliest_date : Z) (w : World) : list ManualVerification :=
  filter (λ r, status r = "approved" ∧ earliest_date ≤ created_at r) (verifications w).

Definition stdout_write (st : style) (text : string) : M unit := emit (Stdout st text).
Definition log_info (text : string) : M unit := emit (LogRecord INFO text).
Definition log_error (text : string) : M unit := emit (LogRecord LOG_ERROR text).

(** ** [approve_id_verification.py] *)

(** The parsed command line ([options] of [handle]). *)
Record Options := {
  opt_all : bool;
  opt_username : option string;
  opt_batch_size : Z;
  opt_dry_run : bool }.

Definition progress_text (approved_count total_users : Z) : string :=
  "Progress: " +:+ pretty approved_count +:+ "/" +:+ pretty total_users
  +:+ " users processed".

Definition completed_text (approved_count error_count : Z) : string :=
  newline +:+ "Completed! Approved: " +:+ pretty approved_count
  +:+ ", Errors: " +:+ pretty error_count.

Definition _approve_user_verification (user : User) (dry_run : bool) : M unit :=
  earliest_date ← earliest_allowed_verification_date;
  (* Check if user already has valid verification *)
  existing_verification ← query (λ w,
    bool_decide (filter (λ r, user_id r = id user) (approved_since earliest_date w) ≠ []));
  if existing_verification : bool then
    stdout_write WARNING
      ("User " +:+ dquote +:+ username user +:+ dquote +:+ " already has valid ID verification")
  else if dry_run then
    stdout_write SUCCESS
      ("[DRY RUN] Would approve ID verification for: " +:+ username user)
  else
    ManualVerification_objects_create user "approved";;
    stdout_write SUCCESS ("Approved ID verification for: " +:+ username user);;
    log_info ("ManualVerification approved for: " +:+ username user).

(** The query set [users_to_approve]: evaluated each time it is used. *)
Definition users_to_approve (earliest_date : Z) (w : World) : list User :=
  let users_with_verification := user_id <$> approved_since earliest_date w in
  order_by_id (filter (λ u, id u ∉ users_with_verification) (users w)).

(** Body of the inner loop: one user of a batch. The local variables are
    [(approved_count, error_count)]. *)
Definition approve_in_batch (total_users : Z) (user : User) (counts : Z * Z) : M (Z * Z) :=
  let '(approved_count, error_count) := counts in
  try_except
    (ManualVerification_objects_create user "approved";;
     let approved_count := approved_count + 1 in
     (if approved_count `mod` 50 =? 0 then
        stdout_write Plain (progress_text approved_count total_users)
      else mret tt);;
     mret (approved_count, error_count))
    (λ e, Some (
       let error_count := error_count + 1 in
       log_error ("Error approving verification for " +:+ username user +:+ ": "
                  +:+ exc_text e);;
       mret (approved_count, error_count))).

(** Body of the outer loop: the batch of [user_ids] that starts at index
    [i]. *)
Definition process_batch (user_ids : list Z) (batch_size total_users : Z)
    (i : Z) (counts : Z * Z) : M (Z * Z) :=
  let batch_ids := slice user_ids i (i + batch_size) in
  batch_users ← query (λ w, filter (λ u, id u ∈ batch_ids) (users w));
  for_each batch_users (approve_in_batch total_users) counts.

Definition _approve_all_users (batch_size : Z) (dry_run : bool) : M unit :=
  earliest_date ← earliest_allowed_verification_date;
  (* Get all users who don't have valid verification *)
  let users_to_approve := users_to_approve earliest_date in
  total_users ← query (λ w, Z.of_nat (length (users_to_approve w)));
  if total_users =? 0 then
    stdout_write SUCCESS "No users need ID verification approval"
  else
    stdout_write WARNING
      ("Found " +:+ pretty total_users +:+ " users without valid ID verification");;
    if dry_run then
      stdout_write SUCCESS
        ("[DRY RUN] Would approve ID verification for " +:+ pretty total_users +:+ " users");;
      (* Show first 10 users as examples *)
      first_users ← query (λ w, slice (users_to_approve w) 0 10);
      for_each first_users (λ user _, stdout_write Plain ("  - " +:+ username user)) tt;;
      if 10 <? total_users then
        stdout_write Plain ("  ... and " +:+ pretty (total_users - 10) +:+ " more")
      else mret tt
    else
      (* Process users in batches *)
      user_ids ← query (λ w, id <$> users_to_approve w);
      starts ← range 0 (Z.of_nat (length user_ids)) batch_size;
      '(approved_count, error_count) ←
        for_each starts (process_batch user_ids batch_size total_users) (0, 0);
      (* Print final progress if not already printed *)
      (if negb (approved_count `mod` 50 =? 0) then
         stdout_write Plain (progress_text approved_count total_users)
       else mret tt);;
      stdout_write SUCCESS (completed_text approved_count error_count).

Definition handle (options : Options) : M unit :=
  let all_users := opt_all options in
  let username := opt_username options in
  let batch_size := opt_batch_size options in
  let dry_run := opt_dry_run options in
  if negb all_users && negb (truthy username) then
    stdout_write ERROR "You must specify either --all or --username <username>"
  else if truthy username then
    let name := default "" username in
    try_except
      (user ← User_objects_get name;
       _approve_user_verification user dry_run)
      (λ e, if decide (exc_cls e = UserDoesNotExist) then
              Some (stdout_write ERROR
                      ("User " +:+ dquote +:+ name +:+ dquote +:+ " does not exist"))
            else None)
  else
    _approve_all_users batch_size dry_run.

(** ** [signals/handlers.py] *)

Definition sync_extended_profile (instance : User) (created : bool) : M unit :=
  if created then ExtendedUserProfile_objects_create instance else mret tt.

Definition set_id_verification_status (user : User) : M unit :=
  try_except
    ((* Get previous valid, non-expired verification attempts for this user *)
     earliest_date ← earliest_allowed_verification_date;
     verifications ← query (λ w,
       filter (λ r, user_id r = id user) (approved_since earliest_date w));
     (* If there is none, create a new approved verification for the user *)
     if bool_decide (verifications = []) then
       ManualVerification_objects_create user "approved";;
       log_info ("ManualVerification approved for: " +:+ username user)
     else mret tt)
    (λ e, Some (
       log_error ("Error setting ID verification status for user " +:+ username user
                  +:+ ": " +:+ exc_text e))).

Definition auto_approve_id_verification_on_registration
    (instance : User) (created : bool) : M unit :=
  if created then set_id_verification_status instance else mret tt.

(** [post_save.send(sender=User, instance=instance, created=created)], as
    the framework runs it when an account is saved: the receivers connected
    by [@receiver(post_save, sender=User)] are called in the order in which
    the module registers them, and an exception of a receiver is not caught
    by the dispatcher. *)
Definition post_save_send (instance : User) (created : bool) : M unit :=
  sync_extended_profile instance created;;
  auto_approve_id_verification_on_registration instance created.

End Program.

(** * Vocabulary of the properties *)

(** ** Effects of a run *)

(** Rows added to the verification table. *)
Definition inserted (out : list event) : list ManualVerification :=
  omap (λ ev, match ev with MVCreate row None => Some row | _ => None end) out.

(** Inserts into the verification table that raised. *)
Definition failed (out : list event) : list (ManualVerification * Exception) :=
  omap (λ ev, match ev with MVCreate row (Some e) => Some (row, e) | _ => None end) out.

(** User ids whose insert raised. *)
Definition failed_ids (out : list event) : list Z := (user_id ∘ fst) <$> failed out.

(** User ids for which an insert was attempted, in order. *)
Definition attempted (out : list event) : list Z :=
  omap (λ ev, match ev with MVCreate row _ => Some (user_id row) | _ => None end) out.

(** Rows added to the profile table. *)
Definition profiles_inserted (out : list event) : list ExtendedUserProfile :=
  omap (λ ev, match ev with ProfileCreate row None => Some row | _ => None end) out.

(** Messages logged at error level. *)
Definition error_logs (out : list event) : list string :=
  omap (λ ev, match ev with LogRecord LOG_ERROR text => Some text | _ => None end) out.

(** Console lines. *)
Definition is_console (ev : event) : Prop :=
  match ev with Stdout _ _ => True | _ => False end.

(** Every attempted insert is of a row with status ["approved"]. *)
Definition creates_approved (ev : event) : Prop :=
  match ev with MVCreate row _ => status row = "approved" | _ => True end.

(** Inserts are attempted only for the ids in [ids]. *)
Definition attempts_within (ids : list Z) (ev : event) : Prop :=
  match ev with MVCreate row _ => user_id row ∈ ids | _ => True end.

(** What is seen of a run when only approvals and unstyled console lines
    are watched; the command writes its progress lines unstyled. *)
Inductive mark :=
| Approval
| ProgressLine (text : string).

Definition marks (out : list event) : list mark :=
  omap (λ ev, match ev with
              | MVCreate _ None => Some Approval
              | Stdout Plain text => Some (ProgressLine text)
              | _ => None
              end) out.

(** ** Predicates on the environment, the database and runs *)

(** No database call that reads raises. *)
Definition reads_ok (env : Env) : Prop := ∀ t, fault env t OpRead = None.

(** A user holds a currently valid approval: a record with status
    ["approved"] created at or after the cutoff. *)
Definition holds_valid_approval (earliest_date : Z) (w : World) (uid : Z) : Prop :=
  ∃ r, r ∈ verifications w ∧ user_id r = uid ∧ status r = "approved"
       ∧ earliest_date ≤ created_at r.

(** [db_frame m]: [m] never touches the user table, and the rows it adds to
    the other tables are exactly those of its successful inserts. *)
Definition db_frame {A} (m : M A) : Prop := ∀ w,
  users (final (m w)) = users w
  ∧ verifications (final (m w)) = verifications w ++ inserted (emitted (m w))
  ∧ profiles (final (m w)) = profiles w ++ profiles_inserted (emitted (m w)).

(** [emits P m]: every effect of [m] satisfies [P]. *)
Definition emits {A} (P : event → Prop) (m : M A) : Prop :=
  ∀ w, Forall P (emitted (m w)).

(** A run that left the three tables as they were and only wrote to the
    console. *)
Definition console_only {A} (w : World) (r : Run A) : Prop :=
  users (final r) = users w
  ∧ verifications (final r) = verifications w
  ∧ profiles (final r) = profiles w
  ∧ Forall is_console (emitted r).

(** A run that attempted no insert for [uid] and left the verification
    records of [uid] as they were in [w]. *)
Definition no_insert_for {A} (uid : Z) (w : World) (r : Run A) : Prop :=
  (uid ∉ attempted (emitted r))
  ∧ filter (λ row, user_id row = uid) (verifications (final r))
    = filter (λ row, user_id row = uid) (verifications w).

(** ** Messages *)

(** The line written when no selection is given. *)
Definition usage_error : event :=
  Stdout ERROR "You must specify either --all or --username <username>".

(** The line written when the named user does not exist. *)
Definition not_found_error (name : string) : event :=
  Stdout ERROR ("User " +:+ dquote +:+ name +:+ dquote +:+ " does not exist").

(** The message logged by the registration hook for exception [e]. *)
Definition hook_error_text (user : User) (e : Exception) : string :=
  "Error setting ID verification status for user " +:+ username user +:+ ": "
  +:+ exc_text e.

(** The first line of a bulk run with a non-empty work list. *)
Definition found_text (total_users : Z) : string :=
  "Found " +:+ pretty total_users +:+ " users without valid ID verification".

(** The message logged by the bulk run for a failed insert. *)
Definition batch_error_text (user : User) (e : Exception) : string :=
  "Error approving verification for " +:+ username user +:+ ": " +:+ exc_text e.

(** The exception of [range] on a zero step. *)
Definition zero_step_error : Exception :=
  {| exc_cls := ValueError; exc_text := "range() arg 3 must not be zero" |}.

(** ** The bulk run *)

(** The row that an approval of [user] made at time [t] inserts. *)
Definition approved_row env (user : User) (t : nat) : ManualVerification :=
  {| user_id := id user; status := "approved"; created_at := clock env t |}.

(** The ids of [users_to_approve], in the order of the query: the work list
    of a bulk run started in [w]. *)
Definition work_list (env : Env) (w : World) : list Z :=
  id <$> users_to_approve (cutoff env (tick w)) w.

(** The start indices of the batches: [range(0, n, batch_size)] for a
    non-zero batch size. *)
Definition batch_starts (n batch_size : Z) : list Z :=
  (λ k, 0 + k * batch_size) <$> seqZ 0 (range_length 0 n batch_size).

(** The users of the batch that starts at [i], as the re-fetch returns
    them: in the order of the user table. *)
Definition batch_users_at (batch_size : Z) (user_ids : list Z) (w : World) (i : Z)
    : list User :=
  filter (λ u, id u ∈ slice user_ids i (i + batch_size)) (users w).

(** The progress line written after the loop, if any. *)
Definition trailing_progress (approved_count total_users : Z) : list event :=
  if negb (approved_count `mod` 50 =? 0)
  then [Stdout Plain (progress_text approved_count total_users)] else [].

(** The marks of [n] approvals that continue a running count of [a]: each
    approval that brings the count to a multiple of 50 is immediately
    followed by the progress line of that count. *)
Fixpoint running_marks (total a : Z) (n : nat) : list mark :=
  match n with
  | O => []
  | S n' =>
      Approval
      :: (if (a + 1) `mod` 50 =? 0 then [ProgressLine (progress_text (a + 1) total)] else [])
      ++ running_marks total (a + 1) n'
  end.

(** What a loop that starts with the counters [(a, e)] maintains. *)
Definition loop_summary (total a e : Z) (r : Run (Z * Z)) : Prop :=
  marks (emitted r) = running_marks total a (length (inserted (emitted r)))
  ∧ length (error_logs (emitted r)) = length (failed (emitted r))
  ∧ ∀ c, outcome r = Ok c →
      c = (a + Z.of_nat (length (inserted (emitted r))),
           e + Z.of_nat (length (failed (emitted r)))).

(** What the specification asks of a run with [n] successful approvals: a
    progress line immediately after every approval whose running count is a
    multiple of 50, and one trailing progress line exactly when [n] is
    positive and not a multiple of 50. *)
Definition expected_marks (total_users : Z) (n : nat) : list mark :=
  running_marks total_users 0 n
  ++ (if negb (Z.of_nat n `mod` 50 =? 0) && (0 <? Z.of_nat n)
      then [ProgressLine (progress_text (Z.of_nat n) total_users)] else []).

(** The claim as the specification states it: the ids for which an insert is
    attempted are the work list, in its order. *)
Definition visits_work_list_in_order (env : Env) (batch_size : Z) (w : World) : Prop :=
  attempted (emitted (_approve_all_users env batch_size false w)) = work_list env w.

(** The claim as the specification states it, for a bulk run without dry
    run started in [w]: the run returns normally; the rows it adds to the
    verification table are those of its successful inserts; every user of the
    work list whose insert did not fail has exactly one of them, with status
    ["approved"]; the final line reports as approved the size of the work
    list minus the number of failed inserts, and that number as errors; and
    each failed insert was logged at error level. *)
Definition bulk_contract (env : Env) (batch_size : Z) (w : World) : Prop :=
  let run := _approve_all_users env batch_size false w in
  let out := emitted run in
  let errors := Z.of_nat (length (failed out)) in
  outcome run = Ok tt
  ∧ verifications (final run) = verifications w ++ inserted out
  ∧ (∀ uid, uid ∈ work_list env w → uid ∉ failed_ids out →
       ∃ row, filter (λ r, user_id r = uid) (inserted out) = [row]
              ∧ status row = "approved")
  ∧ (work_list env w ≠ [] →
     last out = Some (Stdout SUCCESS
                        (completed_text (Z.of_nat (length (work_list env w)) - errors)
                                        errors)))
  ∧ length (error_logs out) = length (failed out).

(** ** Sample environments, databases and options *)

(** An environment in which no database call raises. The cutoff is 100
    and the clock starts at 200. *)
Definition no_faults : Env :=
  {| fault := λ _ _, None; cutoff := λ _, 100; clock := λ t, 200 + Z.of_nat t |}.

(** A database error. *)
Definition db_down : Exception :=
  {| exc_cls := OtherException "OperationalError"; exc_text := "server has gone away" |}.

(** An environment whose database layer raises on every call. *)
Definition always_down : Env :=
  {| fault := λ _ _, Some db_down; cutoff := λ _, 100; clock := λ t, 200 + Z.of_nat t |}.

(** An environment in which reads succeed and every insert raises. *)
Definition inserts_fail : Env :=
  {| fault := λ _ op, match op with OpRead => None | _ => Some db_down end;
     cutoff := λ _, 100; clock := λ t, 200 + Z.of_nat t |}.

(** An environment in which only the insert of a profile raises. *)
Definition profile_insert_fails : Env :=
  {| fault := λ _ op, match op with OpCreateProfile _ => Some db_down | _ => None end;
     cutoff := λ _, 100; clock := λ t, 200 + Z.of_nat t |}.

(** An environment in which reads succeed and only bob's insert raises. *)
Definition bob_insert_fails : Env :=
  {| fault := λ _ op, match op with OpCreateMV 2 => Some db_down | _ => None end;
     cutoff := λ _, 100; clock := λ t, 200 + Z.of_nat t |}.

(** An environment in which the third call to the database layer, the
    re-fetch of the first batch, raises. *)
Definition refetch_fails : Env :=
  {| fault := λ t _, if decide (t = 2%nat) then Some db_down else None;
     cutoff := λ _, 100; clock := λ t, 200 + Z.of_nat t |}.

(** The first account of [two_users]. *)
Definition alice : User := {| id := 1; username := "alice" |}.

(** Two accounts, none of them verified. *)
Definition two_users : World :=
  {| users := [ {| id := 1; username := "alice" |}; {| id := 2; username := "bob" |} ];
     verifications := []; profiles := []; tick := 0 |}.

(** The same two accounts, stored in the opposite order. *)
Definition two_users_reversed : World :=
  {| users := [ {| id := 2; username := "bob" |}; {| id := 1; username := "alice" |} ];
     verifications := []; profiles := []; tick := 0 |}.

(** Alice holds an approval created after the cutoff of [no_faults]; bob
    holds none. *)
Definition alice_verified : World :=
  {| users := users two_users;
     verifications := [ {| user_id := 1; status := "approved"; created_at := 150 |} ];
     profiles := []; tick := 0 |}.

(** Fifty-one accounts, none of them verified. *)
Definition fifty_one_users : World :=
  {| users := (λ k, {| id := k; username := "user" +:+ pretty k |}) <$> seqZ 1 51;
     verifications := []; profiles := []; tick := 0 |}.

(** Options that name alice, with or without [--all]. *)
Definition all_and_alice (dry_run : bool) (all_users : bool) : Options :=
  {| opt_all := all_users; opt_username := Some "alice"; opt_batch_size := 100;
     opt_dry_run := dry_run |}.

(** Options of a bulk run: [--all] without a username. *)
Definition bulk_options (batch_size : Z) (dry_run : bool) : Options :=
  {| opt_all := true; opt_username := None; opt_batch_size := batch_size;
     opt_dry_run := dry_run |}.

(** ** Further vocabulary *)

(** Messages logged at info level. *)
Definition info_logs (out : list event) : list string :=
  omap (λ ev, match ev with LogRecord INFO text => Some text | _ => None end) out.

(** The line written for a user who is already verified. *)
Definition already_verified (user : User) : event :=
  Stdout WARNING ("User " +:+ dquote +:+ username user +:+ dquote
                  +:+ " already has valid ID verification").

(** The line written when the work list is empty. *)
Definition nothing_to_do : event :=
  Stdout SUCCESS "No users need ID verification approval".

(** The info record of an approval. *)
Definition approval_logged (user : User) : event :=
  LogRecord INFO ("ManualVerification approved for: " +:+ username user).

(** The lines of the dry-run preview of a work list [work]. *)
Definition preview_lines (work : list User) : list event :=
  let total_users := Z.of_nat (length work) in
  [Stdout WARNING (found_text total_users);
   Stdout SUCCESS ("[DRY RUN] Would approve ID verification for "
                   +:+ pretty total_users +:+ " users")]
  ++ ((λ u, Stdout Plain ("  - " +:+ username u)) <$> take 10 work)
  ++ (if 10 <? total_users
      then [Stdout Plain ("  ... and " +:+ pretty (total_users - 10) +:+ " more")]
      else []).

(** An attempted insert is recorded as the environment decided it: the row
    carries status ["approved"] and the time of the call, and the result is
    the fault of that call. *)
Definition recorded (env : Env) (ev : event) : Prop :=
  match ev with
  | MVCreate row res =>
      status row = "approved"
      ∧ ∃ t, created_at row = clock env t
             ∧ fault env t (OpCreateMV (user_id row)) = res
  | _ => True
  end.

(** The command writes to the verification table only, and only rows with
    status ["approved"]. *)
Definition command_write (ev : event) : Prop :=
  match ev with
  | MVCreate row _ => status row = "approved"
  | ProfileCreate _ _ => False
  | _ => True
  end.

(** The receivers write rows of the saved account only. *)
Definition receiver_write (instance : User) (ev : event) : Prop :=
  match ev with
  | MVCreate row _ => status row = "approved" ∧ user_id row = id instance
  | ProfileCreate row _ => profile_user_id row = id instance
  | Stdout _ _ => False
  | LogRecord _ _ => True
  end.


(** Anything but a record logged at info level. *)
Definition not_info (ev : event) : Prop :=
  match ev with LogRecord INFO _ => False | _ => True end.

(** One hundred and one accounts, none of them verified. *)
Definition many_users : World :=
  {| users := (λ k, {| id := k; username := "user" +:+ pretty k |}) <$> seqZ 1 101;
     verifications := []; profiles := []; tick := 0 |}.

(** Alice holds two records that do not count: one approved before the
    cutoff of [no_faults] and one recent but denied. *)
Definition alice_stale : World :=
  {| users := users two_users;
     verifications := [ {| user_id := 1; status := "approved"; created_at := 50 |};
                        {| user_id := 1; status := "denied"; created_at := 150 |} ];
     profiles := []; tick := 0 |}.

(** * Properties *)


(** ** Effects and frames of the monad *)

Lemma inserted_app o1 o2 : inserted (o1 ++ o2) = inserted o1 ++ inserted o2.
Proof. apply omap_app. Qed.
Lemma failed_app o1 o2 : failed (o1 ++ o2) = failed o1 ++ failed o2.
Proof. apply omap_app. Qed.
Lemma attempted_app o1 o2 : attempted (o1 ++ o2) = attempted o1 ++ attempted o2.
Proof. apply omap_app. Qed.
Lemma profiles_inserted_app o1 o2 :
  profiles_inserted (o1 ++ o2) = profiles_inserted o1 ++ profiles_inserted o2.
Proof. apply omap_app. Qed.
Lemma error_logs_app o1 o2 : error_logs (o1 ++ o2) = error_logs o1 ++ error_logs o2.
Proof. apply omap_app. Qed.

Lemma db_frame_ret {A} (a : A) : db_frame (mret a).
Proof. intros w. simpl. by rewrite !app_nil_r. Qed.

Lemma db_frame_raise {A} e : db_frame (@raise A e).
Proof. intros w. simpl. by rewrite !app_nil_r. Qed.

Lemma db_frame_bind {A B} (m : M A) (k : A → M B) :
  db_frame m → (∀ a, db_frame (k a)) → db_frame (m ≫= k).
Proof.
  intros Hm Hk w. unfold mbind, M_bind, bind.
  destruct (Hm w) as (Hu & Hv & Hp).
  destruct (m w) as [w1 out1 [a|e]]; simpl in *; [|done].
  destruct (Hk a w1) as (Hu' & Hv' & Hp').
  destruct (k a w1) as [w2 out2 r]; simpl in *.
  rewrite Hu', Hv', Hp', Hu, Hv, Hp, inserted_app, profiles_inserted_app.
  by rewrite !app_assoc.
Qed.

Lemma db_frame_try_except {A} (m : M A) h :
  db_frame m → (∀ e k, h e = Some k → db_frame k) → db_frame (try_except m h).
Proof.
  intros Hm Hh w. unfold try_except.
  destruct (Hm w) as (Hu & Hv & Hp).
  destruct (m w) as [w1 out1 [a|e]]; simpl in *; [done|].
  destruct (h e) as [k|] eqn:Hk; [|done].
  destruct (Hh e k Hk w1) as (Hu' & Hv' & Hp').
  destruct (k w1) as [w2 out2 r]; simpl in *.
  rewrite Hu', Hv', Hp', Hu, Hv, Hp, inserted_app, profiles_inserted_app.
  by rewrite !app_assoc.
Qed.

Lemma db_frame_for_each {A S} (xs : list A) (body : A → S → M S) s :
  (∀ x s', db_frame (body x s')) → db_frame (for_each xs body s).
Proof.
  intros Hb. revert s. induction xs as [|x xs IH]; intros s; simpl.
  - apply db_frame_ret.
  - apply db_frame_bind; auto.
Qed.

Lemma emits_ret {A} P (a : A) : emits P (mret a).
Proof. intros w. constructor. Qed.

Lemma emits_raise {A} P e : emits P (@raise A e).
Proof. intros w. constructor. Qed.

Lemma emits_bind {A B} P (m : M A) (k : A → M B) :
  emits P m → (∀ a, emits P (k a)) → emits P (m ≫= k).
Proof.
  intros Hm Hk w. unfold mbind, M_bind, bind.
  specialize (Hm w). destruct (m w) as [w1 out1 [a|e]]; simpl in *; [|done].
  specialize (Hk a w1). destruct (k a w1) as [w2 out2 r]; simpl in *.
  by apply Forall_app.
Qed.

Lemma emits_try_except {A} P (m : M A) h :
  emits P m → (∀ e k, h e = Some k → emits P k) → emits P (try_except m h).
Proof.
  intros Hm Hh w. unfold try_except.
  specialize (Hm w). destruct (m w) as [w1 out1 [a|e]]; simpl in *; [done|].
  destruct (h e) as [k|] eqn:Hk; [|done].
  specialize (Hh e k Hk w1). destruct (k w1) as [w2 out2 r]; simpl in *.
  by apply Forall_app.
Qed.

Lemma emits_for_each {A S} P (xs : list A) (body : A → S → M S) s :
  (∀ x s', x ∈ xs → emits P (body x s')) → emits P (for_each xs body s).
Proof.
  revert s. induction xs as [|x xs IH]; intros s Hb; simpl.
  - apply emits_ret.
  - apply emits_bind; [apply Hb; left|].
    intros s'. apply IH. intros y s'' Hy. apply Hb. by right.
Qed.

Section ProgramFacts.
Context (env : Env).

Lemma db_frame_query {A} (q : World → A) : db_frame (query env q).
Proof. intros w. unfold query. destruct (fault _ _ _); simpl; by rewrite !app_nil_r. Qed.

Lemma emits_query {A} P (q : World → A) : emits P (query env q).
Proof. intros w. unfold query. destruct (fault _ _ _); constructor. Qed.

Lemma db_frame_earliest : db_frame (earliest_allowed_verification_date env).
Proof. intros w. simpl. by rewrite !app_nil_r. Qed.

Lemma emits_earliest P : emits P (earliest_allowed_verification_date env).
Proof. intros w. constructor. Qed.

Lemma db_frame_stdout st text : db_frame (stdout_write st text).
Proof. intros w. simpl. by rewrite !app_nil_r. Qed.

Lemma db_frame_log lvl text : db_frame (emit (LogRecord lvl text)).
Proof. intros w. simpl. by rewrite !app_nil_r. Qed.

Lemma emits_emit (P : event → Prop) ev : P ev → emits P (emit ev).
Proof. intros H w. by repeat constructor. Qed.

Lemma db_frame_mv_create user st : db_frame (ManualVerification_objects_create env user st).
Proof.
  intros w. unfold ManualVerification_objects_create.
  destruct (fault _ _ _); simpl; by rewrite !app_nil_r.
Qed.

Lemma db_frame_profile_create user : db_frame (ExtendedUserProfile_objects_create env user).
Proof.
  intros w. unfold ExtendedUserProfile_objects_create.
  destruct (fault _ _ _); simpl; by rewrite !app_nil_r.
Qed.

Lemma emits_mv_create (P : event → Prop) user st :
  (∀ t res, P (MVCreate {| user_id := id user; status := st; created_at := t |} res)) →
  emits P (ManualVerification_objects_create env user st).
Proof.
  intros H w. unfold ManualVerification_objects_create.
  destruct (fault _ _ _); repeat constructor; apply H.
Qed.

End ProgramFacts.

Create HintDb frame.
#[export] Hint Resolve db_frame_ret db_frame_raise db_frame_query db_frame_earliest
  db_frame_stdout db_frame_log db_frame_mv_create db_frame_profile_create
  emits_ret emits_raise emits_query emits_earliest : frame.

(** Decomposes a frame goal along the structure of the program. *)
Ltac frame_step :=
  lazymatch goal with
  | |- db_frame (_ ≫= _) => apply db_frame_bind; [|intros ?]
  | |- emits _ (_ ≫= _) => apply emits_bind; [|intros ?]
  | |- db_frame (try_except _ _) =>
      apply db_frame_try_except; [|intros ? ? ?; repeat case_match; simplify_eq]
  | |- emits _ (try_except _ _) =>
      apply emits_try_except; [|intros ? ? ?; repeat case_match; simplify_eq]
  | |- db_frame (for_each _ _ _) => apply db_frame_for_each; intros ? ?
  | |- emits _ (for_each _ _ _) => apply emits_for_each; intros ? ? ?
  | |- emits _ (stdout_write _ _) => apply emits_emit; simpl
  | |- emits _ (log_info _) => apply emits_emit; simpl
  | |- emits _ (log_error _) => apply emits_emit; simpl
  | |- emits _ (ManualVerification_objects_create _ _ _) =>
      apply emits_mv_create; intros ? ?
  | |- db_frame (log_info _) => apply db_frame_log
  | |- db_frame (log_error _) => apply db_frame_log
  | |- context [match ?x with _ => _ end] => destruct x eqn:?
  end.
Ltac frame := repeat (first [ solve [auto with frame] | frame_step ]).

(** ** Frame properties of the program *)

Section Frames.
Context (env : Env).

Lemma approve_in_batch_db_frame total user counts :
  db_frame (approve_in_batch env total user counts).
Proof. destruct counts. unfold approve_in_batch. frame. Qed.

Lemma _approve_user_verification_db_frame user dry_run :
  db_frame (_approve_user_verification env user dry_run).
Proof. unfold _approve_user_verification. frame. Qed.

Lemma _approve_all_users_db_frame batch_size dry_run :
  db_frame (_approve_all_users env batch_size dry_run).
Proof.
  unfold _approve_all_users, range, process_batch. frame.
  apply approve_in_batch_db_frame.
Qed.

Lemma User_objects_get_db_frame name : db_frame (User_objects_get env name).
Proof. unfold User_objects_get. frame. Qed.

Lemma handle_db_frame options : db_frame (handle env options).
Proof.
  unfold handle.
  frame; auto using User_objects_get_db_frame, _approve_user_verification_db_frame,
    _approve_all_users_db_frame.
Qed.

Lemma set_id_verification_status_db_frame user :
  db_frame (set_id_verification_status env user).
Proof. unfold set_id_verification_status. frame. Qed.

Lemma _approve_user_verification_dry_console user :
  emits is_console (_approve_user_verification env user true).
Proof. unfold _approve_user_verification. frame. Qed.

Lemma _approve_all_users_dry_console batch_size :
  emits is_console (_approve_all_users env batch_size true).
Proof. unfold _approve_all_users. frame. Qed.

Lemma User_objects_get_silent P name : emits P (User_objects_get env name).
Proof. unfold User_objects_get. frame. Qed.

Lemma handle_dry_console all_users name batch_size :
  emits is_console
    (handle env {| opt_all := all_users; opt_username := name;
                   opt_batch_size := batch_size; opt_dry_run := true |}).
Proof.
  unfold handle. simpl.
  frame; auto using User_objects_get_silent, _approve_user_verification_dry_console,
    _approve_all_users_dry_console.
Qed.

End Frames.

Lemma console_inserts_nothing out :
  Forall is_console out → inserted out = [] ∧ profiles_inserted out = [].
Proof.
  induction 1 as [|ev out Hev _ [IH1 IH2]]; [done|].
  destruct ev; done.
Qed.

Lemma console_only_intro {A} (m : M A) w :
  db_frame m → emits is_console m → console_only w (m w).
Proof.
  intros Hf He. destruct (Hf w) as (Hu & Hv & Hp).
  destruct (console_inserts_nothing _ (He w)) as [Hi Hpi].
  rewrite Hi, Hpi, !app_nil_r in *. by repeat split.
Qed.

(** ** Dry run *)

(** C2. With the dry-run flag set the command writes nothing to the
    database, whatever the input and whatever the database layer does: the
    user, verification and profile tables are left as they were and every
    effect is a console line. This holds for the command as a whole and for
    its single-user and bulk modes. *)
Theorem dry_run_never_writes env all_users name batch_size user w :
  console_only w
    (handle env {| opt_all := all_users; opt_username := name;
                   opt_batch_size := batch_size; opt_dry_run := true |} w)
  ∧ console_only w (_approve_user_verification env user true w)
  ∧ console_only w (_approve_all_users env batch_size true w).
Proof.
  repeat split_and; apply console_only_intro.
  - apply handle_db_frame.
  - apply handle_dry_console.
  - apply _approve_user_verification_db_frame.
  - apply _approve_user_verification_dry_console.
  - apply _approve_all_users_db_frame.
  - apply _approve_all_users_dry_console.
Qed.

(** ** Evaluating runs *)

Lemma for_each_cons {A S} (x : A) xs (body : A → S → M S) s w :
  for_each (x :: xs) body s w = bind (body x s) (λ s', for_each xs body s') w.
Proof. reflexivity. Qed.

Lemma query_ok env {A} (q : World → A) w :
  fault env (tick w) OpRead = None →
  query env q w = MkRun (bump w) [] (Ok (q w)).
Proof. intros H. unfold query. by rewrite H. Qed.

(** The validity check of the single-user paths agrees with
    [holds_valid_approval]. *)
Lemma valid_rows_nil earliest_date w uid :
  filter (λ r, user_id r = uid) (approved_since earliest_date w) = []
  ↔ ¬ holds_valid_approval earliest_date w uid.
Proof.
  unfold approved_since, holds_valid_approval. split.
  - intros Hnil (r & Hin & Hu & Hs & Hc).
    assert (r ∈ filter (λ r, user_id r = uid)
              (filter (λ r, status r = "approved" ∧ earliest_date ≤ created_at r)
                 (verifications w))) as Hr
      by (rewrite !list_elem_of_filter; auto).
    rewrite Hnil in Hr. by apply not_elem_of_nil in Hr.
  - intros Hno. apply elem_of_nil_inv. intros r.
    rewrite !list_elem_of_filter. intros (Hu & (Hs & Hc) & Hin).
    apply Hno. eauto 6.
Qed.

(** ** Selection errors *)

(** C7. When neither [--all] nor a username is given, the command writes
    the styled usage error, leaves the database untouched and returns
    normally. When a username is given, the lookup itself succeeds and no
    user has that name, the command writes the styled not-found error,
    leaves the three tables untouched and returns normally. *)
Theorem selection_errors_are_reported env options w :
  (opt_all options = false → truthy (opt_username options) = false →
   handle env options w = MkRun w [usage_error] (Ok tt))
  ∧ (∀ name, opt_username options = Some name → name ≠ "" →
     fault env (tick w) OpRead = None →
     (∀ u, u ∈ users w → username u ≠ name) →
     handle env options w = MkRun (bump w) [not_found_error name] (Ok tt)).
Proof.
  split.
  - intros Hall Hname. unfold handle. by rewrite Hall, Hname.
  - intros name Hopt Hne Hread Habsent. unfold handle. rewrite Hopt.
    destruct name as [|c name]; [done|]. simpl. rewrite andb_false_r.
    unfold try_except, User_objects_get, mbind, M_bind, bind.
    rewrite query_ok by done.
    replace (filter _ (users w)) with (@nil User); [done|].
    symmetry. apply elem_of_nil_inv. intros u. rewrite list_elem_of_filter.
    intros [Hu Hin]. by apply (Habsent u).
Qed.

Lemma selection_errors_are_reported_witness :
  handle no_faults
    {| opt_all := false; opt_username := None; opt_batch_size := 100;
       opt_dry_run := false |} two_users
  = MkRun two_users [usage_error] (Ok tt)
  ∧ handle no_faults
      {| opt_all := false; opt_username := Some "carol"; opt_batch_size := 100;
         opt_dry_run := false |} two_users
    = MkRun (bump two_users) [not_found_error "carol"] (Ok tt).
Proof.
  split.
  - apply (proj1 (selection_errors_are_reported no_faults
             {| opt_all := false; opt_username := None; opt_batch_size := 100;
                opt_dry_run := false |} two_users)); reflexivity.
  - apply (proj2 (selection_errors_are_reported no_faults
             {| opt_all := false; opt_username := Some "carol"; opt_batch_size := 100;
                opt_dry_run := false |} two_users) "carol");
      [reflexivity | discriminate | reflexivity |].
    apply Forall_forall. repeat constructor; discriminate.
Defined.

(** ** Single-user approval *)

(** The run of [_approve_user_verification], case by case. *)
Lemma _approve_user_verification_run env user dry_run w :
  _approve_user_verification env user dry_run w =
  match fault env (tick w) OpRead with
  | Some e => MkRun (bump w) [] (Raise e)
  | None =>
      if bool_decide (filter (λ r, user_id r = id user)
                        (approved_since (cutoff env (tick w)) w) ≠ []) then
        MkRun (bump w)
          [Stdout WARNING ("User " +:+ dquote +:+ username user +:+ dquote
                           +:+ " already has valid ID verification")] (Ok tt)
      else if dry_run then
        MkRun (bump w)
          [Stdout SUCCESS ("[DRY RUN] Would approve ID verification for: "
                           +:+ username user)] (Ok tt)
      else
        match fault env (S (tick w)) (OpCreateMV (id user)) with
        | Some e =>
            MkRun (bump (bump w)) [MVCreate (approved_row env user (S (tick w))) (Some e)]
                  (Raise e)
        | None =>
            MkRun {| users := users w;
                     verifications := verifications w ++ [approved_row env user (S (tick w))];
                     profiles := profiles w; tick := S (S (tick w)) |}
                  [MVCreate (approved_row env user (S (tick w))) None;
                   Stdout SUCCESS ("Approved ID verification for: " +:+ username user);
                   LogRecord INFO ("ManualVerification approved for: " +:+ username user)]
                  (Ok tt)
        end
  end.
Proof.
  unfold _approve_user_verification, earliest_allowed_verification_date, query,
    ManualVerification_objects_create, mbind, M_bind, bind. simpl.
  destruct (fault env (tick w) OpRead); [done|].
  case_bool_decide; [done|]. destruct dry_run; [done|]. simpl.
  destruct (fault env (S (tick w)) _); done.
Qed.

(** The run of [User.objects.get]. *)
Lemma User_objects_get_run env name w :
  User_objects_get env name w =
  match fault env (tick w) OpRead with
  | Some e => MkRun (bump w) [] (Raise e)
  | None =>
      match filter (λ u, username u = name) (users w) with
      | [u] => MkRun (bump w) [] (Ok u)
      | [] => MkRun (bump w) []
                (Raise {| exc_cls := UserDoesNotExist;
                          exc_text := "User matching query does not exist." |})
      | _ => MkRun (bump w) []
               (Raise {| exc_cls := UserMultipleObjectsReturned;
                         exc_text := "get() returned more than one User" |})
      end
  end.
Proof.
  unfold User_objects_get, query, mbind, M_bind, bind.
  destruct (fault env (tick w) OpRead); [done|].
  by destruct (filter _ (users w)) as [|u [|u' l]].
Qed.

Lemma _approve_user_verification_attempts env user dry_run w :
  attempted (emitted (_approve_user_verification env user dry_run w)) = []
  ∨ attempted (emitted (_approve_user_verification env user dry_run w)) = [id user].
Proof.
  rewrite _approve_user_verification_run.
  repeat case_match; simpl; auto.
Qed.

(** ** Precedence of [--username] over [--all] *)

Lemma handle_named_not_rejected env all_users name batch_size dry_run :
  name ≠ "" →
  emits (λ ev, ev ≠ usage_error)
    (handle env {| opt_all := all_users; opt_username := Some name;
                   opt_batch_size := batch_size; opt_dry_run := dry_run |}).
Proof.
  intros Hne. destruct name as [|c name]; [done|].
  unfold handle, _approve_user_verification, usage_error. simpl.
  rewrite andb_false_r.
  frame; try done; auto using User_objects_get_silent.
Qed.

(** C10. When [--all] and a non-empty username are given together, the
    command behaves exactly as with the username alone, whatever the batch
    size: it is not rejected with the usage error, and the only insert it may
    attempt is a single one, for a user of that name. *)
Theorem username_takes_precedence env name batch_size batch_size' dry_run w :
  name ≠ "" →
  let both :=
    handle env {| opt_all := true; opt_username := Some name;
                  opt_batch_size := batch_size; opt_dry_run := dry_run |} w in
  (both = handle env {| opt_all := false; opt_username := Some name;
                        opt_batch_size := batch_size'; opt_dry_run := dry_run |} w)
  ∧ (usage_error ∉ emitted both)
  ∧ (attempted (emitted both) = []
     ∨ ∃ u, u ∈ users w ∧ username u = name ∧ attempted (emitted both) = [id u]).
Proof.
  intros Hne both. subst both. split_and!.
  - by destruct name.
  - pose proof (handle_named_not_rejected env true name batch_size dry_run Hne w) as H.
    rewrite Forall_forall in H. intros Hin. by apply (H _ Hin).
  - destruct name as [|c name]; [done|].
    unfold handle, try_except, mbind, M_bind, bind. simpl.
    rewrite User_objects_get_run.
    destruct (fault env (tick w) OpRead) as [e|]; simpl.
    { case_decide; simpl; auto. }
    destruct (filter _ (users w)) as [|u [|u' l]] eqn:Hf; simpl; auto.
    assert (u ∈ users w ∧ username u = String c name) as [Hu Hn].
    { assert (u ∈ filter (λ u, username u = String c name) (users w)) as Hin
        by (rewrite Hf; left).
      apply list_elem_of_filter in Hin. tauto. }
    pose proof (_approve_user_verification_attempts env u dry_run (bump w)) as Hatt.
    destruct (_approve_user_verification env u dry_run (bump w)) as [w1 out1 [[]|e]];
      simpl in *.
    + destruct Hatt as [Hatt|Hatt]; eauto.
    + case_decide; simpl; rewrite ?attempted_app; simpl; rewrite ?app_nil_r;
        destruct Hatt as [Hatt|Hatt]; eauto.
Qed.

Lemma username_takes_precedence_witness :
  handle no_faults (all_and_alice false true) two_users
  = handle no_faults (all_and_alice false false) two_users
  ∧ attempted (emitted (handle no_faults (all_and_alice false true) two_users)) = [1].
Proof.
  split.
  - apply (username_takes_precedence no_faults "alice" 100 100 false two_users).
    discriminate.
  - reflexivity.
Defined.

(** ** Registration hooks *)

(** The run of [set_id_verification_status], case by case. *)
Lemma set_id_verification_status_run env user w :
  set_id_verification_status env user w =
  match fault env (tick w) OpRead with
  | Some e => MkRun (bump w) [LogRecord LOG_ERROR (hook_error_text user e)] (Ok tt)
  | None =>
      if bool_decide (filter (λ r, user_id r = id user)
                        (approved_since (cutoff env (tick w)) w) = []) then
        match fault env (S (tick w)) (OpCreateMV (id user)) with
        | Some e =>
            MkRun (bump (bump w))
              [MVCreate (approved_row env user (S (tick w))) (Some e);
               LogRecord LOG_ERROR (hook_error_text user e)] (Ok tt)
        | None =>
            MkRun {| users := users w;
                     verifications := verifications w ++ [approved_row env user (S (tick w))];
                     profiles := profiles w; tick := S (S (tick w)) |}
                  [MVCreate (approved_row env user (S (tick w))) None;
                   LogRecord INFO ("ManualVerification approved for: " +:+ username user)]
                  (Ok tt)
        end
      else MkRun (bump w) [] (Ok tt)
  end.
Proof.
  unfold set_id_verification_status, try_except, earliest_allowed_verification_date,
    query, ManualVerification_objects_create, mbind, M_bind, bind. simpl.
  destruct (fault env (tick w) OpRead); [done|].
  case_bool_decide; [|done]. simpl.
  destruct (fault env (S (tick w)) _); done.
Qed.

Lemma set_id_verification_status_returns env user w :
  outcome (set_id_verification_status env user w) = Ok tt.
Proof. rewrite set_id_verification_status_run. by repeat case_match. Qed.

Lemma auto_approve_returns env user created w :
  outcome (auto_approve_id_verification_on_registration env user created w) = Ok tt.
Proof. destruct created; [apply set_id_verification_status_returns|done]. Qed.

(** C6. The approval hook never lets an exception out: for every new user,
    every database state and every behaviour of the database layer,
    [set_id_verification_status] and the receiver that calls it return
    normally, and so does the dispatch of the user-created event whenever
    the profile insert of the other receiver succeeds. When the validity
    check raises [e], or when the check passes, finds no valid approval and
    the insert raises [e], the exception is logged at error level in a
    message that carries the username and [str(e)]. *)
Theorem registration_hook_swallows_exceptions env user w :
  let run := set_id_verification_status env user w in
  outcome run = Ok tt
  ∧ (∀ created,
       outcome (auto_approve_id_verification_on_registration env user created w) = Ok tt)
  ∧ (fault env (tick w) (OpCreateProfile (id user)) = None →
     outcome (post_save_send env user true w) = Ok tt)
  ∧ (∀ e, fault env (tick w) OpRead = Some e →
       emitted run = [LogRecord LOG_ERROR (hook_error_text user e)])
  ∧ (∀ e, fault env (tick w) OpRead = None →
       ¬ holds_valid_approval (cutoff env (tick w)) w (id user) →
       fault env (S (tick w)) (OpCreateMV (id user)) = Some e →
       emitted run = [MVCreate (approved_row env user (S (tick w))) (Some e);
                      LogRecord LOG_ERROR (hook_error_text user e)]).
Proof.
  intros run. subst run. split_and!.
  - apply set_id_verification_status_returns.
  - intros created. apply auto_approve_returns.
  - intros Hprofile.
    unfold post_save_send, mbind, M_bind, bind, sync_extended_profile,
      ExtendedUserProfile_objects_create.
    rewrite Hprofile.
    match goal with |- context [auto_approve_id_verification_on_registration _ _ _ ?w1] =>
      pose proof (auto_approve_returns env user true w1) as Hok;
      by destruct (auto_approve_id_verification_on_registration env user true w1)
    end.
  - intros e He. by rewrite set_id_verification_status_run, He.
  - intros e Hread Hnone He. rewrite set_id_verification_status_run, Hread.
    apply valid_rows_nil in Hnone. rewrite bool_decide_eq_true_2 by done.
    by rewrite He.
Qed.

Lemma registration_hook_swallows_exceptions_witness :
  emitted (set_id_verification_status always_down alice two_users)
  = [LogRecord LOG_ERROR (hook_error_text alice db_down)]
  ∧ emitted (set_id_verification_status inserts_fail alice two_users)
    = [MVCreate (approved_row inserts_fail alice 1) (Some db_down);
       LogRecord LOG_ERROR (hook_error_text alice db_down)]
  ∧ outcome (post_save_send no_faults alice true two_users) = Ok tt.
Proof.
  split_and!.
  - apply (registration_hook_swallows_exceptions always_down alice two_users).
    reflexivity.
  - apply (registration_hook_swallows_exceptions inserts_fail alice two_users);
      [reflexivity | | reflexivity].
    intros (r & Hr & _). simpl in Hr. by apply not_elem_of_nil in Hr.
  - apply (registration_hook_swallows_exceptions no_faults alice two_users).
    reflexivity.
Defined.

(** C8. The profile-sync receiver has no exception handling: on a
    user-created event, when the insert of the extended profile raises [e],
    the receiver itself ends by raising [e] and no profile row is added, and
    so does the dispatch of the event to the receivers, which is what the
    code that saved the account called. The approval receiver, run on the
    same event, returns normally. *)
Theorem profile_sync_propagates_exceptions env instance w e :
  fault env (tick w) (OpCreateProfile (id instance)) = Some e →
  outcome (sync_extended_profile env instance true w) = Raise e
  ∧ profiles (final (sync_extended_profile env instance true w)) = profiles w
  ∧ outcome (post_save_send env instance true w) = Raise e
  ∧ outcome (auto_approve_id_verification_on_registration env instance true w) = Ok tt.
Proof.
  intros He.
  unfold post_save_send, mbind, M_bind, bind, sync_extended_profile,
    ExtendedUserProfile_objects_create.
  rewrite He. simpl. split_and!; [done..|].
  apply (auto_approve_returns env instance true w).
Qed.

Lemma profile_sync_propagates_exceptions_witness :
  outcome (sync_extended_profile profile_insert_fails alice true two_users)
  = Raise db_down
  ∧ profiles (final (sync_extended_profile profile_insert_fails alice true two_users))
    = profiles two_users
  ∧ outcome (post_save_send profile_insert_fails alice true two_users) = Raise db_down
  ∧ outcome (auto_approve_id_verification_on_registration profile_insert_fails alice
               true two_users) = Ok tt.
Proof.
  apply (profile_sync_propagates_exceptions profile_insert_fails alice two_users db_down).
  reflexivity.
Defined.

(** ** Bulk approval: the loops *)

Lemma marks_app o1 o2 : marks (o1 ++ o2) = marks o1 ++ marks o2.
Proof. apply omap_app. Qed.

(** The run of one iteration of the inner loop. *)
Lemma approve_in_batch_run env total user a e w :
  approve_in_batch env total user (a, e) w =
  match fault env (tick w) (OpCreateMV (id user)) with
  | None =>
      MkRun {| users := users w;
               verifications := verifications w ++ [approved_row env user (tick w)];
               profiles := profiles w; tick := S (tick w) |}
            (MVCreate (approved_row env user (tick w)) None
             :: if (a + 1) `mod` 50 =? 0
                then [Stdout Plain (progress_text (a + 1) total)] else [])
            (Ok (a + 1, e))
  | Some x =>
      MkRun (bump w)
            [MVCreate (approved_row env user (tick w)) (Some x);
             LogRecord LOG_ERROR (batch_error_text user x)]
            (Ok (a, e + 1))
  end.
Proof.
  unfold approve_in_batch, try_except, ManualVerification_objects_create,
    mbind, M_bind, bind.
  destruct (fault env (tick w) _); [done|]. simpl.
  by destruct (_ =? 0).
Qed.

Lemma running_marks_app total a n m :
  running_marks total a (n + m)
  = running_marks total a n ++ running_marks total (a + Z.of_nat n) m.
Proof.
  revert a. induction n as [|n IH]; intros a.
  - simpl. by rewrite Z.add_0_r.
  - change (S n + m)%nat with (S (n + m)). cbn [running_marks].
    rewrite IH. replace (a + 1 + Z.of_nat n) with (a + Z.of_nat (S n)) by lia.
    by rewrite app_comm_cons, app_assoc.
Qed.

Lemma loop_summary_nil total a e w r :
  (∀ c, r = Ok c → c = (a, e)) → loop_summary total a e (MkRun w [] r).
Proof.
  intros H. split_and!; [done..|]. simpl. intros c Hc.
  rewrite (H c Hc). f_equal; lia.
Qed.

Lemma loop_summary_seq total a e (r1 r2 : Run (Z * Z)) a1 e1 :
  loop_summary total a e r1 → outcome r1 = Ok (a1, e1) →
  loop_summary total a1 e1 r2 →
  loop_summary total a e (MkRun (final r2) (emitted r1 ++ emitted r2) (outcome r2)).
Proof.
  intros (Hm1 & Hl1 & Hc1) Hok (Hm2 & Hl2 & Hc2). specialize (Hc1 _ Hok).
  injection Hc1 as -> ->. unfold loop_summary. simpl.
  rewrite marks_app, inserted_app, failed_app, error_logs_app, !length_app.
  split_and!.
  - by rewrite running_marks_app, Hm1, Hm2.
  - lia.
  - intros c Hc. rewrite (Hc2 c Hc). f_equal; lia.
Qed.

Lemma loop_summary_for_each {A} total (xs : list A) body :
  (∀ x a e w, loop_summary total a e (body x (a, e) w)) →
  ∀ a e w, loop_summary total a e (for_each xs body (a, e) w).
Proof.
  intros Hbody. induction xs as [|x xs IH]; intros a e w; simpl.
  - apply loop_summary_nil. by intros c [= <-].
  - unfold mbind, M_bind, bind. pose proof (Hbody x a e w) as H1.
    destruct (body x (a, e) w) as [w1 out1 [[a1 e1]|x1]].
    + pose proof (IH a1 e1 w1) as H2.
      destruct (for_each xs body (a1, e1) w1) as [w2 out2 r2].
      by apply (loop_summary_seq total a e (MkRun w1 out1 (Ok (a1, e1)))
                  (MkRun w2 out2 r2) a1 e1).
    + destruct H1 as (Hm & Hl & _). by split_and!.
Qed.

Section Loops.
Context (env : Env) (total_users : Z).

Lemma approve_in_batch_summary user a e w :
  loop_summary total_users a e (approve_in_batch env total_users user (a, e) w).
Proof.
  rewrite approve_in_batch_run. destruct (fault env (tick w) _) as [x|].
  - split_and!; [done..|]. simpl. intros c [= <-]. f_equal; lia.
  - split_and!.
    + simpl. destruct (_ =? 0); by rewrite ?app_nil_r.
    + by destruct (_ =? 0).
    + simpl. intros c [= <-]. destruct (_ =? 0); simpl; f_equal; lia.
Qed.

Lemma process_batch_summary user_ids batch_size i a e w :
  loop_summary total_users a e
    (process_batch env user_ids batch_size total_users i (a, e) w).
Proof.
  unfold process_batch, query, mbind, M_bind, bind.
  destruct (fault env (tick w) OpRead) as [x|].
  - by apply loop_summary_nil.
  - pose proof (loop_summary_for_each total_users
      (filter (λ u, id u ∈ slice user_ids i (i + batch_size)) (users w))
      (approve_in_batch env total_users) approve_in_batch_summary a e (bump w)) as H.
    by destruct (for_each _ _ _ _) as [w2 out2 r2].
Qed.

(** The inner loop never raises and attempts its users in turn. *)
Lemma batch_users_attempted batch_users : ∀ counts w,
  ∃ c, outcome (for_each batch_users (approve_in_batch env total_users) counts w) = Ok c
  ∧ attempted (emitted (for_each batch_users (approve_in_batch env total_users) counts w))
    = id <$> batch_users
  ∧ users (final (for_each batch_users (approve_in_batch env total_users) counts w))
    = users w.
Proof.
  induction batch_users as [|u us IH]; intros [a e] w; [by eexists|].
  cbn [for_each]. unfold mbind, M_bind, bind. rewrite approve_in_batch_run.
  destruct (fault env (tick w) _) as [x|].
  - destruct (IH (a, e + 1) (bump w)) as (c & Hc & Ha & Hu).
    destruct (for_each us _ _ _) as [w2 out2 r2]. simpl in *.
    exists c. by rewrite Ha.
  - match goal with |- context [for_each us _ ?s ?w1] =>
      destruct (IH s w1) as (c & Hc & Ha & Hu);
      destruct (for_each us _ s w1) as [w2 out2 r2] end.
    simpl in *. exists c. rewrite attempted_app, Ha. split_and!; [done| |done].
    by destruct (_ =? 0).
Qed.

End Loops.

Section Batches.
Context (env : Env) (total_users batch_size : Z) (user_ids : list Z).

Lemma process_batch_run i counts w :
  process_batch env user_ids batch_size total_users i counts w =
  match fault env (tick w) OpRead with
  | Some x => MkRun (bump w) [] (Raise x)
  | None => for_each (batch_users_at batch_size user_ids w i) (approve_in_batch env total_users) counts (bump w)
  end.
Proof.
  unfold process_batch, query, mbind, M_bind, bind.
  destruct (fault env (tick w) OpRead); [done|].
  unfold batch_users_at. by destruct (for_each _ _ _ _).
Qed.

(** The outer loop: when it completes, it has attempted the users of each
    batch in turn; it completes whenever reads do not raise. *)
Lemma batches_attempted starts : ∀ counts w,
  users (final (for_each starts (process_batch env user_ids batch_size total_users)
                  counts w)) = users w
  ∧ (∀ c, outcome (for_each starts (process_batch env user_ids batch_size total_users)
                     counts w) = Ok c →
       attempted (emitted (for_each starts
                             (process_batch env user_ids batch_size total_users) counts w))
       = starts ≫= λ i, id <$> batch_users_at batch_size user_ids w i)
  ∧ (reads_ok env →
     ∃ c, outcome (for_each starts (process_batch env user_ids batch_size total_users)
                     counts w) = Ok c).
Proof.
  induction starts as [|i starts IH]; intros counts w.
  { split_and!; [done..|]. by eexists. }
  rewrite !for_each_cons. unfold bind. rewrite process_batch_run.
  destruct (fault env (tick w) OpRead) as [x|] eqn:Hread.
  { split_and!; [done..|]. intros Hok. by rewrite Hok in Hread. }
  destruct (batch_users_attempted env total_users (batch_users_at batch_size user_ids w i) counts (bump w))
    as (c1 & Hc1 & Ha1 & Hu1).
  destruct (for_each (batch_users_at batch_size user_ids w i) _ _ _) as [w1 out1 r1]. simpl in *. subst r1.
  destruct (IH c1 w1) as (Hu2 & Ha2 & Hok2).
  destruct (for_each starts _ c1 w1) as [w2 out2 r2]. simpl in *.
  split_and!.
  - congruence.
  - intros c ->. rewrite attempted_app, Ha1, (Ha2 c eq_refl).
    f_equal. unfold batch_users_at. by rewrite Hu1.
  - done.
Qed.

End Batches.

(** The run of the bulk approval without dry run, up to its loop. *)
Lemma _approve_all_users_run env batch_size w :
  let work := users_to_approve (cutoff env (tick w)) w in
  let total_users := Z.of_nat (length work) in
  _approve_all_users env batch_size false w =
  match fault env (tick w) OpRead with
  | Some x => MkRun (bump w) [] (Raise x)
  | None =>
      if total_users =? 0 then
        MkRun (bump w) [Stdout SUCCESS "No users need ID verification approval"] (Ok tt)
      else
        match fault env (S (tick w)) OpRead with
        | Some x => MkRun (bump (bump w)) [Stdout WARNING (found_text total_users)] (Raise x)
        | None =>
            if batch_size =? 0 then
              MkRun (bump (bump w)) [Stdout WARNING (found_text total_users)]
                (Raise {| exc_cls := ValueError;
                          exc_text := "range() arg 3 must not be zero" |})
            else
              let starts := (λ k, 0 + k * batch_size)
                            <$> seqZ 0 (range_length 0 (Z.of_nat (length (id <$> work)))
                                          batch_size) in
              match for_each starts
                      (process_batch env (id <$> work) batch_size total_users) (0, 0)
                      (bump (bump w)) with
              | MkRun w' out (Ok (approved_count, error_count)) =>
                  MkRun w'
                    (Stdout WARNING (found_text total_users)
                     :: out
                     ++ (if negb (approved_count `mod` 50 =? 0)
                         then [Stdout Plain (progress_text approved_count total_users)]
                         else [])
                     ++ [Stdout SUCCESS (completed_text approved_count error_count)])
                    (Ok tt)
              | MkRun w' out (Raise x) =>
                  MkRun w' (Stdout WARNING (found_text total_users) :: out) (Raise x)
              end
        end
  end.
Proof.
  intros work total_users.
  unfold _approve_all_users, earliest_allowed_verification_date, query, range,
    mbind, M_bind, bind. simpl.
  destruct (fault env (tick w) OpRead); [done|]. fold work total_users. simpl.
  destruct (total_users =? 0); [done|]. simpl.
  destruct (fault env (S (tick w)) OpRead); [done|].
  destruct (batch_size =? 0); [done|]. simpl.
  change (users_to_approve (cutoff env (tick w)) (bump w)) with work.
  destruct (for_each _ _ _ _) as [w' out [[a e]|x]]; simpl; [|done].
  by destruct (a `mod` 50 =? 0).
Qed.

(** ** Ranges, slices and sorted lists *)

Lemma slice_sublist {A} (l : list A) lo hi : slice l lo hi `sublist_of` l.
Proof.
  unfold slice. etrans; [apply sublist_take | apply sublist_drop].
Qed.

Lemma take_slice {A} (l : list A) a b :
  0 ≤ a ≤ b → take (Z.to_nat a) l ++ slice l a b = take (Z.to_nat b) l.
Proof.
  intros Hab. unfold slice, slice_index.
  rewrite !(proj2 (Z.ltb_ge _ 0)) by lia.
  destruct (decide (Z.of_nat (length l) ≤ a)) as [Hge|Hlt].
  - rewrite (take_ge l (Z.to_nat a)), (take_ge l (Z.to_nat b)) by lia.
    rewrite drop_ge by lia. by rewrite take_nil, app_nil_r.
  - rewrite (Z.min_l a) by lia. rewrite take_take_drop.
    destruct (decide (b ≤ Z.of_nat (length l))).
    + rewrite (Z.min_l b) by lia. f_equal. lia.
    + rewrite (Z.min_r b) by lia.
      by rewrite (take_ge l (Z.to_nat b)), take_ge by lia.
Qed.

(** The slices taken at the indices of [range(0, len(l), step)] cut [l]
    into consecutive pieces. *)
Lemma slices_take {A} (l : list A) step (k : nat) :
  0 < step →
  ((λ j, 0 + j * step) <$> seqZ 0 (Z.of_nat k)) ≫= (λ i, slice l i (i + step))
  = take (Z.to_nat (Z.of_nat k * step)) l.
Proof.
  intros Hstep. induction k as [|k IH].
  - done.
  - rewrite seqZ_S, fmap_app, bind_app, IH. simpl. rewrite app_nil_r.
    replace (0 + (0 + Z.of_nat k) * step) with (Z.of_nat k * step) by lia.
    rewrite take_slice by nia. f_equal. lia.
Qed.

Lemma range_length_covers n step :
  0 < step → 0 ≤ n →
  0 ≤ range_length 0 n step ∧ n ≤ range_length 0 n step * step.
Proof.
  intros Hstep Hn. unfold range_length.
  rewrite (proj2 (Z.ltb_lt 0 step)) by done. simpl.
  destruct (0 <? n) eqn:Hpos.
  - apply Z.ltb_lt in Hpos.
    pose proof (Z.div_mod (n - 0 - 1) step ltac:(lia)) as Hdm.
    pose proof (Z.mod_pos_bound (n - 0 - 1) step Hstep) as Hmod.
    pose proof (Z.div_pos (n - 0 - 1) step ltac:(lia) Hstep). nia.
  - apply Z.ltb_ge in Hpos.
    rewrite (proj2 (Z.ltb_ge step 0)) by lia. simpl. lia.
Qed.

Lemma slices_cover {A} (l : list A) step :
  0 < step →
  ((λ j, 0 + j * step) <$> seqZ 0 (range_length 0 (Z.of_nat (length l)) step))
    ≫= (λ i, slice l i (i + step))
  = l.
Proof.
  intros Hstep.
  destruct (range_length_covers (Z.of_nat (length l)) step Hstep ltac:(lia)) as [H0 Hn].
  rewrite <- (Z2Nat.id (range_length 0 _ step)) by done.
  rewrite slices_take by done. apply take_ge. rewrite Z2Nat.id by done. lia.
Qed.

Lemma sublist_fmap_2 {A B} (f : A → B) (l1 l2 : list A) :
  l1 `sublist_of` l2 → f <$> l1 `sublist_of` f <$> l2.
Proof. induction 1; csimpl; by constructor. Qed.

Lemma sublist_StronglySorted {A} (R : relation A) (l1 l2 : list A) :
  l1 `sublist_of` l2 → StronglySorted R l2 → StronglySorted R l1.
Proof.
  induction 1 as [|x l1 l2 Hsub IH|x l1 l2 Hsub IH]; intros Hs.
  - constructor.
  - apply StronglySorted_inv in Hs as [Hs Hx]. constructor; [auto|].
    rewrite Forall_forall in Hx |- *. eauto using elem_of_sublist.
  - apply StronglySorted_inv in Hs as [Hs Hx]. auto.
Qed.

Global Instance id_le_trans : Transitive id_le.
Proof. intros u v x. unfold id_le. lia. Qed.
Global Instance id_le_total : Total id_le.
Proof. intros u v. unfold id_le. lia. Qed.

Lemma order_by_id_Permutation l : order_by_id l ≡ₚ l.
Proof. apply merge_sort_Permutation. Qed.

Lemma order_by_id_sorted l : StronglySorted Z.le (id <$> order_by_id l).
Proof.
  apply (StronglySorted_fmap id id_le Z.le); [done|].
  apply (StronglySorted_merge_sort id_le).
Qed.

(** A list sorted by [≤] without duplicates is strictly ascending. *)
Lemma sorted_NoDup_ascending (l : list Z) :
  StronglySorted Z.le l → NoDup l → StronglySorted Z.lt l.
Proof.
  induction 1 as [|x l Hs IH Hx]; intros Hnd; [constructor|].
  apply NoDup_cons in Hnd as [Hx' Hnd]. constructor; [auto|].
  rewrite Forall_forall in Hx |- *. intros y Hy.
  specialize (Hx y Hy). assert (x ≠ y) by (by intros ->). lia.
Qed.

Lemma ascending_unique (l1 l2 : list Z) :
  StronglySorted Z.lt l1 → StronglySorted Z.lt l2 → l1 ≡ₚ l2 → l1 = l2.
Proof. apply StronglySorted_unique_strong. intros. lia. Qed.

(** ** The work list *)

Lemma elem_of_users_to_approve earliest_date w u :
  u ∈ users_to_approve earliest_date w
  ↔ u ∈ users w ∧ ¬ holds_valid_approval earliest_date w (id u).
Proof.
  unfold users_to_approve. rewrite order_by_id_Permutation, list_elem_of_filter.
  rewrite list_elem_of_fmap. unfold approved_since, holds_valid_approval.
  split; intros [H1 H2]; split; try done.
  - intros (r & Hin & Hu & Hs & Hc). apply H1. exists r. split; [done|].
    apply list_elem_of_filter. auto.
  - intros (r & Hu & Hin). apply list_elem_of_filter in Hin as [[Hs Hc] Hin].
    apply H2. exists r. auto.
Qed.

Lemma elem_of_work_list env w uid :
  uid ∈ work_list env w
  ↔ uid ∈ id <$> users w ∧ ¬ holds_valid_approval (cutoff env (tick w)) w uid.
Proof.
  unfold work_list. rewrite !list_elem_of_fmap. split.
  - intros (u & -> & Hu). apply elem_of_users_to_approve in Hu as [Hu Hv]. eauto.
  - intros [(u & -> & Hu) Hv]. exists u. split; [done|].
    by apply elem_of_users_to_approve.
Qed.

Lemma work_list_NoDup env w : NoDup (id <$> users w) → NoDup (work_list env w).
Proof.
  intros Hnd. unfold work_list, users_to_approve.
  rewrite order_by_id_Permutation.
  eapply sublist_NoDup; [done|]. apply sublist_fmap_2, sublist_filter.
Qed.

Lemma work_list_ascending env w :
  NoDup (id <$> users w) → StronglySorted Z.lt (work_list env w).
Proof.
  intros Hnd. apply sorted_NoDup_ascending; [|by apply work_list_NoDup].
  apply order_by_id_sorted.
Qed.

(** ** Re-fetching a batch *)

Lemma refetch_Permutation (table : list User) (batch_ids : list Z) :
  NoDup (id <$> table) → NoDup batch_ids →
  (∀ x, x ∈ batch_ids → x ∈ id <$> table) →
  id <$> filter (λ u, id u ∈ batch_ids) table ≡ₚ batch_ids.
Proof.
  intros Htable Hbatch Hsub. apply NoDup_Permutation; [|done|].
  - apply (sublist_NoDup _ (id <$> table)); [done|].
    apply sublist_fmap_2, sublist_filter.
  - intros x. rewrite list_elem_of_fmap. split.
    + intros (u & -> & Hu). by apply list_elem_of_filter in Hu as [? _].
    + intros Hx. pose proof (Hsub x Hx) as Hin.
      apply list_elem_of_fmap in Hin as (u & -> & Hu).
      exists u. split; [done|]. by apply list_elem_of_filter.
Qed.

Lemma refetch_in_order (table : list User) (batch_ids : list Z) :
  StronglySorted Z.lt (id <$> table) → StronglySorted Z.lt batch_ids →
  (∀ x, x ∈ batch_ids → x ∈ id <$> table) →
  id <$> filter (λ u, id u ∈ batch_ids) table = batch_ids.
Proof.
  intros Htable Hbatch Hsub.
  assert (∀ l : list Z, StronglySorted Z.lt l → NoDup l) as Hnd.
  { induction 1 as [|x l Hs IH Hx]; constructor; [|done].
    rewrite Forall_forall in Hx. intros Hin. specialize (Hx x Hin). lia. }
  apply ascending_unique; [|done|].
  - apply (sublist_StronglySorted _ _ (id <$> table)); [|done].
    apply sublist_fmap_2, sublist_filter.
  - apply refetch_Permutation; auto.
Qed.

Lemma bind_Permutation_ext {A B} (l : list A) (f g : A → list B) :
  (∀ x, x ∈ l → f x ≡ₚ g x) → l ≫= f ≡ₚ l ≫= g.
Proof.
  induction l as [|x l IH]; intros H; [done|]. csimpl.
  rewrite (H x) by left. rewrite IH; [done|]. intros y Hy. apply H. by right.
Qed.

Lemma bind_eq_ext {A B} (l : list A) (f g : A → list B) :
  (∀ x, x ∈ l → f x = g x) → l ≫= f = l ≫= g.
Proof.
  induction l as [|x l IH]; intros H; [done|]. csimpl.
  rewrite (H x) by left. rewrite IH; [done|]. intros y Hy. apply H. by right.
Qed.

(** ** Bulk approval: complete runs *)

Lemma work_list_length env w :
  length (work_list env w) = length (users_to_approve (cutoff env (tick w)) w).
Proof. apply length_fmap. Qed.

(** With a non-empty work list, a non-zero batch size and reads that do
    not raise, the bulk run reaches its end; [out] is what its loop did. *)
Lemma bulk_run_completes env batch_size w :
  reads_ok env → batch_size ≠ 0 → work_list env w ≠ [] →
  let total_users := Z.of_nat (length (work_list env w)) in
  ∃ w' out,
    _approve_all_users env batch_size false w
    = MkRun w'
        (Stdout WARNING (found_text total_users)
         :: out
         ++ trailing_progress (Z.of_nat (length (inserted out))) total_users
         ++ [Stdout SUCCESS (completed_text (Z.of_nat (length (inserted out)))
                                            (Z.of_nat (length (failed out))))])
        (Ok tt)
    ∧ marks out = running_marks total_users 0 (length (inserted out))
    ∧ length (error_logs out) = length (failed out)
    ∧ attempted out
      = batch_starts total_users batch_size
          ≫= (λ i, id <$> batch_users_at batch_size (work_list env w) w i).
Proof.
  intros Hreads Hbs Hwork total_users.
  pose proof (_approve_all_users_run env batch_size w) as Hrun. simpl in Hrun.
  rewrite !Hreads in Hrun. rewrite length_fmap, <- work_list_length in Hrun.
  fold total_users in Hrun. fold (work_list env w) in Hrun.
  fold (batch_starts total_users batch_size) in Hrun.
  assert ((total_users =? 0) = false) as Htot.
  { apply Z.eqb_neq. subst total_users. destruct (work_list env w); [done|]. simpl. lia. }
  rewrite Htot, (proj2 (Z.eqb_neq batch_size 0)) in Hrun by done.
  destruct (batches_attempted env total_users batch_size (work_list env w)
              (batch_starts total_users batch_size) (0, 0) (bump (bump w)))
    as (_ & Hatt & Hok).
  destruct (Hok Hreads) as [[a e] Hc]. specialize (Hatt _ Hc).
  pose proof (loop_summary_for_each total_users (batch_starts total_users batch_size)
    (process_batch env (work_list env w) batch_size total_users)
    (process_batch_summary env total_users (work_list env w) batch_size)
    0 0 (bump (bump w))) as (Hm & Hl & Hcount).
  specialize (Hcount _ Hc). injection Hcount as -> ->.
  destruct (for_each _ _ _ _) as [w' out r]. simpl in *. subst r.
  exists w', out. rewrite Hrun. by split_and!.
Qed.

Lemma batch_starts_negative n batch_size :
  0 ≤ n → batch_size < 0 → batch_starts n batch_size = [].
Proof.
  intros Hn Hbs. unfold batch_starts, range_length.
  rewrite (proj2 (Z.ltb_ge 0 batch_size)), (proj2 (Z.ltb_ge n 0)) by lia.
  simpl. by rewrite andb_false_r.
Qed.

Lemma batch_starts_empty batch_size : batch_starts 0 batch_size = [].
Proof.
  unfold batch_starts, range_length. simpl. by rewrite !andb_false_r.
Qed.

(** ** Batch sizes that are not positive *)

(** C9. In a bulk run without dry run whose work list is not empty and
    whose reads do not raise: with batch size 0 the run ends by raising the
    [ValueError] of a zero range step, which [handle] does not catch, after
    the "Found ..." line and before any insert is attempted; with a negative
    batch size the run attempts no insert, writes "Completed! Approved: 0,
    Errors: 0" and returns normally. In both cases the tables are left as
    they were. *)
Theorem nonpositive_batch_size env batch_size w :
  reads_ok env → work_list env w ≠ [] →
  let total_users := Z.of_nat (length (work_list env w)) in
  let run := handle env (bulk_options batch_size false) w in
  run = _approve_all_users env batch_size false w
  ∧ (batch_size = 0 →
     run = MkRun (bump (bump w)) [Stdout WARNING (found_text total_users)]
             (Raise zero_step_error))
  ∧ (batch_size < 0 →
     run = MkRun (bump (bump w))
             [Stdout WARNING (found_text total_users);
              Stdout SUCCESS (completed_text 0 0)]
             (Ok tt)).
Proof.
  intros Hreads Hwork total_users run. subst run. split; [done|].
  change (handle env (bulk_options batch_size false) w)
    with (_approve_all_users env batch_size false w).
  pose proof (_approve_all_users_run env batch_size w) as Hrun. simpl in Hrun.
  rewrite !Hreads in Hrun. rewrite length_fmap, <- work_list_length in Hrun.
  fold total_users in Hrun.
  assert ((total_users =? 0) = false) as Htot.
  { apply Z.eqb_neq. subst total_users. destruct (work_list env w); [done|]. simpl. lia. }
  rewrite Htot in Hrun. split.
  - intros ->. by rewrite Hrun.
  - intros Hneg. rewrite Hrun, (proj2 (Z.eqb_neq batch_size 0)) by lia.
    fold (batch_starts total_users batch_size).
    rewrite batch_starts_negative by lia. done.
Qed.

Lemma nonpositive_batch_size_witness :
  handle no_faults (bulk_options 0 false) two_users
  = MkRun (bump (bump two_users)) [Stdout WARNING (found_text 2)] (Raise zero_step_error)
  ∧ handle no_faults (bulk_options (-5) false) two_users
    = MkRun (bump (bump two_users))
        [Stdout WARNING (found_text 2); Stdout SUCCESS (completed_text 0 0)] (Ok tt).
Proof.
  split.
  - apply (nonpositive_batch_size no_faults 0 two_users); done.
  - apply (nonpositive_batch_size no_faults (-5) two_users); done.
Defined.

(** ** Bulk approval visits the work list *)

Lemma bulk_run_empty env batch_size w :
  reads_ok env → work_list env w = [] →
  _approve_all_users env batch_size false w
  = MkRun (bump w) [Stdout SUCCESS "No users need ID verification approval"] (Ok tt).
Proof.
  intros Hreads Hwork.
  pose proof (_approve_all_users_run env batch_size w) as Hrun. simpl in Hrun.
  rewrite !Hreads, <- work_list_length, Hwork in Hrun. done.
Qed.

Lemma attempted_bulk_output found out a t completed :
  attempted (Stdout WARNING found :: out
             ++ trailing_progress a t ++ [Stdout SUCCESS completed])
  = attempted out.
Proof.
  change (Stdout WARNING found :: ?l) with ([Stdout WARNING found] ++ l).
  rewrite !attempted_app. unfold trailing_progress.
  destruct (negb _); simpl; by rewrite app_nil_r.
Qed.

Lemma inserted_bulk_output found out a t completed :
  inserted (Stdout WARNING found :: out
            ++ trailing_progress a t ++ [Stdout SUCCESS completed])
  = inserted out.
Proof.
  change (Stdout WARNING found :: ?l) with ([Stdout WARNING found] ++ l).
  rewrite !inserted_app. unfold trailing_progress.
  destruct (negb _); simpl; by rewrite app_nil_r.
Qed.

Lemma failed_bulk_output found out a t completed :
  failed (Stdout WARNING found :: out
          ++ trailing_progress a t ++ [Stdout SUCCESS completed])
  = failed out.
Proof.
  change (Stdout WARNING found :: ?l) with ([Stdout WARNING found] ++ l).
  rewrite !failed_app. unfold trailing_progress.
  destruct (negb _); simpl; by rewrite app_nil_r.
Qed.

Lemma error_logs_bulk_output found out a t completed :
  error_logs (Stdout WARNING found :: out
              ++ trailing_progress a t ++ [Stdout SUCCESS completed])
  = error_logs out.
Proof.
  change (Stdout WARNING found :: ?l) with ([Stdout WARNING found] ++ l).
  rewrite !error_logs_app. unfold trailing_progress.
  destruct (negb _); simpl; by rewrite app_nil_r.
Qed.

Lemma concat_fmap_bind {A B} (f : A → list B) (l : list A) :
  concat (f <$> l) = l ≫= f.
Proof. induction l as [|x l IH]; csimpl; by rewrite ?IH. Qed.

(** Each batch of the work list is re-fetched as a permutation of itself,
    and as itself when the user table is in ascending id order. *)
Lemma refetch_batch env batch_size w i :
  NoDup (id <$> users w) →
  let batch_ids := slice (work_list env w) i (i + batch_size) in
  let fetched := id <$> batch_users_at batch_size (work_list env w) w i in
  fetched ≡ₚ batch_ids
  ∧ (StronglySorted Z.lt (id <$> users w) → fetched = batch_ids).
Proof.
  intros Hnd batch_ids fetched. subst fetched. unfold batch_users_at. fold batch_ids.
  assert (batch_ids `sublist_of` work_list env w) as Hsub by apply slice_sublist.
  assert (∀ x, x ∈ batch_ids → x ∈ id <$> users w) as Hin.
  { intros x Hx. eapply elem_of_sublist in Hx; [|done].
    by apply elem_of_work_list in Hx as [? _]. }
  split.
  - apply refetch_Permutation; [done| |done].
    eapply sublist_NoDup; [|done]. by apply work_list_NoDup.
  - intros Hsorted. apply refetch_in_order; [done| |done].
    eapply sublist_StronglySorted; [done|]. by apply work_list_ascending.
Qed.

Lemma bulk_visited_batches env batch_size w :
  0 < batch_size → reads_ok env →
  attempted (emitted (_approve_all_users env batch_size false w))
  = batch_starts (Z.of_nat (length (work_list env w))) batch_size
      ≫= (λ i, id <$> batch_users_at batch_size (work_list env w) w i).
Proof.
  intros Hbs Hreads. destruct (decide (work_list env w = [])) as [Hnil|Hne].
  - rewrite bulk_run_empty by done. by rewrite Hnil, batch_starts_empty.
  - destruct (bulk_run_completes env batch_size w Hreads ltac:(lia) Hne)
      as (w' & out & -> & _ & _ & Hatt).
    cbn [emitted]. by rewrite attempted_bulk_output.
Qed.

Lemma bulk_visited_Permutation env batch_size w :
  0 < batch_size → reads_ok env → NoDup (id <$> users w) →
  attempted (emitted (_approve_all_users env batch_size false w)) ≡ₚ work_list env w.
Proof.
  intros Hbs Hreads Hnd. rewrite bulk_visited_batches by done.
  rewrite <- (slices_cover (work_list env w) batch_size Hbs) at 2.
  apply bind_Permutation_ext. intros i _. by apply refetch_batch.
Qed.

(** C3, as amended. For a positive batch size, a user table with unique ids
    and reads that do not raise, the bulk run without dry run attempts an
    insert for every id of the work list exactly once: the work list is
    strictly ascending, it is cut into consecutive batches, the batches are
    taken in that order and the ids attempted in a batch are the ids of the
    batch, in the order in which the unsorted re-fetch returns their rows.
    When the user table yields its rows in ascending id order, the ids are
    attempted exactly in the order of the work list. *)
Theorem batches_visit_work_list env batch_size w :
  0 < batch_size → reads_ok env → NoDup (id <$> users w) →
  let visited := attempted (emitted (_approve_all_users env batch_size false w)) in
  StronglySorted Z.lt (work_list env w)
  ∧ visited ≡ₚ work_list env w
  ∧ NoDup visited
  ∧ (∃ batches fetched,
       concat batches = work_list env w ∧ concat fetched = visited
       ∧ Forall2 (≡ₚ) fetched batches
       ∧ Forall (λ b, Z.of_nat (length b) ≤ batch_size) batches)
  ∧ (StronglySorted Z.lt (id <$> users w) →
     visits_work_list_in_order env batch_size w).
Proof.
  intros Hbs Hreads Hnd visited.
  set (total_users := Z.of_nat (length (work_list env w))).
  set (starts := batch_starts total_users batch_size).
  set (cut := λ i, slice (work_list env w) i (i + batch_size)).
  set (fetch := λ i, id <$> batch_users_at batch_size (work_list env w) w i).
  assert (starts ≫= cut = work_list env w) as Hcover by by apply slices_cover.
  assert (visited = starts ≫= fetch) as Hvisited
    by by apply bulk_visited_batches.
  assert (visited ≡ₚ work_list env w) as Hperm
    by by apply bulk_visited_Permutation.
  split_and!.
  - by apply work_list_ascending.
  - done.
  - rewrite Hperm. by apply work_list_NoDup.
  - exists (cut <$> starts), (fetch <$> starts). rewrite !concat_fmap_bind.
    split_and!; [done|done| |].
    + apply Forall2_fmap, Forall_Forall2_diag, Forall_forall. intros i _.
      by apply refetch_batch.
    + apply Forall_fmap, Forall_forall. intros i _. subst cut. simpl.
      unfold slice. rewrite length_take. unfold slice_index.
      destruct (Z.ltb_spec i 0), (Z.ltb_spec (i + batch_size) 0); lia.
  - intros Hsorted. unfold visits_work_list_in_order. fold visited.
    rewrite Hvisited, <- Hcover. apply bind_eq_ext. intros i _.
    by apply refetch_batch.
Qed.

Lemma batches_visit_work_list_witness :
  attempted (emitted (_approve_all_users no_faults 1 false two_users)) = [1; 2].
Proof.
  apply (batches_visit_work_list no_faults 1 two_users);
    [lia | by intros t | compute_done | compute_done].
Defined.

(** With a negative batch size the range of batch starts is empty, so no
    id of the work list is visited. *)
Lemma batches_visit_work_list_counterexample :
  ¬ visits_work_list_in_order no_faults (-1) two_users.
Proof. unfold visits_work_list_in_order. vm_compute. discriminate. Qed.

(** The re-fetch of a batch is not sorted: inside a batch the users are
    visited in the order of the rows of the user table. *)
Example refetch_follows_table_order :
  work_list no_faults two_users_reversed = [1; 2]
  ∧ attempted (emitted (_approve_all_users no_faults 100 false two_users_reversed))
    = [2; 1].
Proof. by vm_compute. Qed.

(** ** Bulk approval: records and counts *)

Lemma attempted_split out :
  attempted out ≡ₚ (user_id <$> inserted out) ++ failed_ids out.
Proof.
  unfold failed_ids. induction out as [|ev out IH]; [done|].
  destruct ev as [| |row [e|]|]; simpl; try done.
  - rewrite IH. apply Permutation_middle.
  - rewrite IH. done.
Qed.

Lemma filter_unique_row (l : list ManualVerification) uid :
  NoDup (user_id <$> l) → uid ∈ user_id <$> l →
  ∃ row, filter (λ r, user_id r = uid) l = [row].
Proof.
  induction l as [|r l IH]; csimpl; intros Hnd Hin.
  - by apply not_elem_of_nil in Hin.
  - apply NoDup_cons in Hnd as [Hr Hnd]. rewrite filter_cons.
    destruct (decide (user_id r = uid)) as [<-|Hne].
    + exists r. f_equal. apply elem_of_nil_inv. intros r'.
      rewrite list_elem_of_filter. intros [Heq Hr'].
      apply Hr. rewrite <- Heq. by apply list_elem_of_fmap_2.
    + apply elem_of_cons in Hin as [->|Hin]; [done|]. by apply IH.
Qed.

Lemma _approve_all_users_creates_approved env batch_size dry_run :
  emits creates_approved (_approve_all_users env batch_size dry_run).
Proof.
  unfold _approve_all_users, range, process_batch. frame; try done.
  match goal with |- emits _ (approve_in_batch _ _ _ ?c) => destruct c end.
  unfold approve_in_batch. frame; done.
Qed.

Lemma inserted_approved out :
  Forall creates_approved out → Forall (λ row, status row = "approved") (inserted out).
Proof.
  induction 1 as [|ev out Hev _ IH]; [constructor|].
  destruct ev as [| |row [e|]|]; simpl; auto.
Qed.

(** C4, as amended. For a positive batch size, a user table with unique
    ids and reads that do not raise, a bulk run without dry run returns
    normally; every user of the work list whose insert did not fail gets
    exactly one new verification record, with status ["approved"]; the final
    line reports as approved the size of the work list minus the number of
    failed inserts; and every failed insert was caught and logged. *)
Theorem bulk_run_counts env batch_size w :
  0 < batch_size → reads_ok env → NoDup (id <$> users w) →
  bulk_contract env batch_size w.
Proof.
  intros Hbs Hreads Hnd. unfold bulk_contract.
  pose proof (bulk_visited_Permutation env batch_size w Hbs Hreads Hnd) as Hperm.
  pose proof (_approve_all_users_creates_approved env batch_size false w) as Happ.
  destruct (_approve_all_users_db_frame env batch_size false w) as (_ & Hver & _).
  destruct (decide (work_list env w = [])) as [Hnil|Hne].
  { rewrite bulk_run_empty in * by done. rewrite Hnil.
    split_and!; [done|done| |done|done].
    intros uid Hin. by apply not_elem_of_nil in Hin. }
  destruct (bulk_run_completes env batch_size w Hreads ltac:(lia) Hne)
    as (w' & out & Hrun & _ & Hlogs & _).
  rewrite Hrun in *. cbn [emitted outcome final] in *. unfold failed_ids.
  rewrite failed_bulk_output, inserted_bulk_output, error_logs_bulk_output,
    attempted_bulk_output in *.
  apply inserted_approved in Happ. rewrite inserted_bulk_output in Happ.
  pose proof (attempted_split out) as Hsplit.
  assert (NoDup (user_id <$> inserted out)) as Hnd_ins.
  { apply (NoDup_app (user_id <$> inserted out) (failed_ids out)).
    rewrite <- Hsplit, Hperm. by apply work_list_NoDup. }
  unfold failed_ids in Hsplit.
  split_and!; [done|done| | |done].
  - intros uid Hin Hnot. rewrite <- Hperm, Hsplit, elem_of_app in Hin.
    destruct Hin as [Hin|Hin]; [|done].
    destruct (filter_unique_row _ uid Hnd_ins Hin) as [row Hrow].
    exists row. split; [done|]. rewrite Forall_forall in Happ. apply Happ.
    assert (row ∈ filter (λ r, user_id r = uid) (inserted out)) as Hr
      by (rewrite Hrow; left).
    by apply list_elem_of_filter in Hr as [_ ?].
  - intros _. rewrite app_comm_cons, !app_assoc, last_snoc. do 3 f_equal.
    apply Permutation_length in Hperm, Hsplit.
    rewrite length_app, !length_fmap in Hsplit. lia.
Qed.

Lemma bulk_run_counts_witness :
  bulk_contract bob_insert_fails 1 two_users
  ∧ last (emitted (_approve_all_users bob_insert_fails 1 false two_users))
    = Some (Stdout SUCCESS (completed_text 1 1)).
Proof.
  split; [|reflexivity].
  apply (bulk_run_counts bob_insert_fails 1 two_users);
    [lia | by intros t | compute_done].
Defined.

(** With a negative batch size alice is in the work list and no insert
    fails, yet she gets no record (and the run reports 0 approved out of a
    work list of 2 with 0 errors). *)
Lemma bulk_run_counts_counterexample : ¬ bulk_contract no_faults (-1) two_users.
Proof.
  intros (_ & _ & Hone & _).
  destruct (Hone 1) as (row & Hrow & _); [compute_done..|].
  vm_compute in Hrow. discriminate.
Qed.

(** ** Progress lines *)

Lemma marks_bulk_output found out a t completed :
  marks (Stdout WARNING found :: out
         ++ trailing_progress a t ++ [Stdout SUCCESS completed])
  = marks out
    ++ (if negb (a `mod` 50 =? 0) then [ProgressLine (progress_text a t)] else []).
Proof.
  change (Stdout WARNING found :: ?l) with ([Stdout WARNING found] ++ l).
  rewrite !marks_app. unfold trailing_progress.
  destruct (negb _); simpl; by rewrite ?app_nil_r.
Qed.

(** C5. In a bulk run without dry run, whatever the batch size and
    whichever inserts fail, the approvals and the unstyled console lines
    are, in order: each successful approval, immediately followed by the
    progress line of its running count when that count is a multiple of 50;
    and, when the run reaches its end, one more progress line exactly when
    the number of successful approvals is positive and not a multiple of 50.
    A run cut short by an exception has the same lines up to that point and
    no trailing one. *)
Theorem progress_lines env batch_size w :
  let run := _approve_all_users env batch_size false w in
  let total_users := Z.of_nat (length (work_list env w)) in
  let n := length (inserted (emitted run)) in
  (outcome run = Ok tt → marks (emitted run) = expected_marks total_users n)
  ∧ (∀ e, outcome run = Raise e →
       marks (emitted run) = running_marks total_users 0 n).
Proof.
  intros run total_users n. subst run n.
  pose proof (_approve_all_users_run env batch_size w) as Hrun. simpl in Hrun.
  rewrite length_fmap, <- work_list_length in Hrun. rewrite Hrun. clear Hrun.
  fold total_users.
  destruct (fault env (tick w) OpRead); [done|].
  destruct (total_users =? 0); [done|].
  destruct (fault env (S (tick w)) OpRead); [done|].
  destruct (batch_size =? 0); [done|].
  fold (work_list env w). fold (batch_starts total_users batch_size).
  pose proof (loop_summary_for_each total_users (batch_starts total_users batch_size)
    (process_batch env (work_list env w) batch_size total_users)
    (process_batch_summary env total_users (work_list env w) batch_size)
    0 0 (bump (bump w))) as (Hm & _ & Hcount).
  destruct (for_each _ _ _ _) as [w' out [[a e]|x]];
    cbn [emitted outcome] in *; (split; [|done]).
  - intros _. specialize (Hcount _ eq_refl). injection Hcount as -> _.
    fold (trailing_progress (0 + Z.of_nat (length (inserted out))) total_users).
    rewrite marks_bulk_output, inserted_bulk_output, Hm. unfold expected_marks.
    f_equal. rewrite Z.add_0_l.
    destruct (Z.eqb_spec (Z.of_nat (length (inserted out)) `mod` 50) 0) as [Hz|Hnz];
      [done|]. simpl.
    rewrite (proj2 (Z.ltb_lt 0 _)); [done|].
    destruct (length (inserted out)); [done|lia].
  - done.
Qed.

Lemma progress_lines_witness :
  marks (emitted (_approve_all_users no_faults 20 false fifty_one_users))
  = expected_marks 51 51
  ∧ marks (emitted (_approve_all_users refetch_fails 20 false fifty_one_users))
    = running_marks 51 0 0.
Proof.
  split.
  - apply (progress_lines no_faults 20 fifty_one_users). by vm_compute.
  - apply (proj2 (progress_lines refetch_fails 20 fifty_one_users) db_down).
    by vm_compute.
Defined.

(** The run over the fifty-one accounts: a progress line after the fiftieth
    approval and a trailing one after the last. *)
Example progress_of_fifty_one :
  marks (emitted (_approve_all_users no_faults 20 false fifty_one_users))
  = replicate 50 Approval
    ++ [ProgressLine "Progress: 50/51 users processed"; Approval;
        ProgressLine "Progress: 51/51 users processed"].
Proof. by vm_compute. Qed.

(** ** No second approval *)

Lemma attempted_within ids out :
  Forall (attempts_within ids) out → ∀ uid, uid ∈ attempted out → uid ∈ ids.
Proof.
  induction 1 as [|ev out Hev _ IH]; intros uid Hin.
  - by apply not_elem_of_nil in Hin.
  - destruct ev; simpl in *; auto.
    apply elem_of_cons in Hin as [->|Hin]; auto.
Qed.

Lemma inserted_attempted out row :
  row ∈ inserted out → user_id row ∈ attempted out.
Proof.
  induction out as [|ev out IH]; intros Hin.
  - by apply not_elem_of_nil in Hin.
  - destruct ev as [| |row' [e|]|]; simpl in *; auto.
    + right. auto.
    + apply elem_of_cons in Hin as [->|Hin]; [left|right; auto].
Qed.

Lemma emits_query_bind env {A B} P (q : World → A) (k : A → M B) :
  (∀ w0, emits P (k (q w0))) → emits P (query env q ≫= k).
Proof.
  intros Hk w. unfold query, mbind, M_bind, bind.
  destruct (fault env (tick w) OpRead); [constructor|].
  specialize (Hk w (bump w)). by destruct (k (q w) (bump w)).
Qed.

Lemma batches_attempt_within env user_ids batch_size total_users starts counts :
  emits (attempts_within user_ids)
    (for_each starts (process_batch env user_ids batch_size total_users) counts).
Proof.
  apply emits_for_each. intros i counts' _. unfold process_batch.
  apply emits_query_bind. intros w0. apply emits_for_each.
  intros u [a e] Hu. apply list_elem_of_filter in Hu as [Hu _].
  pose proof (elem_of_sublist _ _ _ Hu (slice_sublist _ _ _)) as Hin.
  unfold approve_in_batch. frame; done.
Qed.

Lemma bulk_attempts_in_work_list env batch_size w uid :
  uid ∈ attempted (emitted (_approve_all_users env batch_size false w)) →
  uid ∈ work_list env w.
Proof.
  pose proof (_approve_all_users_run env batch_size w) as Hrun. simpl in Hrun.
  rewrite Hrun. clear Hrun.
  destruct (fault env (tick w) OpRead); [by intros ?%not_elem_of_nil|].
  destruct (_ =? 0); [by intros ?%not_elem_of_nil|].
  destruct (fault env (S (tick w)) OpRead); [by intros ?%not_elem_of_nil|].
  destruct (batch_size =? 0); [by intros ?%not_elem_of_nil|].
  fold (work_list env w).
  match goal with |- context [for_each ?s ?b ?c ?w0] =>
    pose proof (batches_attempt_within env (work_list env w) batch_size
                  (Z.of_nat (length (users_to_approve (cutoff env (tick w)) w)))
                  s c w0) as Hwithin;
    destruct (for_each s b c w0) as [w' out [[a e]|x]] end;
    cbn [emitted] in *; intros Hin; apply (attempted_within _ _ Hwithin); revert Hin.
  - change (Stdout WARNING ?f :: ?l) with ([Stdout WARNING f] ++ l).
    rewrite !attempted_app. simpl. destruct (negb _); simpl; by rewrite app_nil_r.
  - done.
Qed.

Lemma no_insert_for_intro {A} (m : M A) uid w :
  db_frame m → uid ∉ attempted (emitted (m w)) → no_insert_for uid w (m w).
Proof.
  intros Hframe Hnot. split; [done|].
  destruct (Hframe w) as (_ & -> & _). rewrite filter_app.
  replace (filter _ (inserted _)) with (@nil ManualVerification);
    [by rewrite app_nil_r|].
  symmetry. apply elem_of_nil_inv. intros row.
  rewrite list_elem_of_filter. intros [<- Hin]. by apply Hnot, inserted_attempted.
Qed.

Lemma console_attempts_nothing out : Forall is_console out → attempted out = [].
Proof.
  induction 1 as [|ev out Hev _ IH]; [done|]. destruct ev; done.
Qed.

(** C1. A user who already holds a verification record with status
    ["approved"] created at or after the cutoff gets no new record from any
    of the three approval operations, whatever the database layer does: no
    insert is even attempted for that user by the single-user approval, by
    the bulk approval (with any batch size, dry run or not) or by the
    registration hook, and the user's verification records are the same
    after the run as before. *)
Theorem no_second_approval env user batch_size dry_run w :
  holds_valid_approval (cutoff env (tick w)) w (id user) →
  no_insert_for (id user) w (_approve_user_verification env user dry_run w)
  ∧ no_insert_for (id user) w (_approve_all_users env batch_size dry_run w)
  ∧ no_insert_for (id user) w (set_id_verification_status env user w).
Proof.
  intros Hvalid.
  assert (filter (λ r, user_id r = id user) (approved_since (cutoff env (tick w)) w) ≠ [])
    as Hrows by (by rewrite valid_rows_nil; intros ?).
  split_and!; apply no_insert_for_intro.
  - apply _approve_user_verification_db_frame.
  - rewrite _approve_user_verification_run.
    rewrite bool_decide_eq_true_2 by done.
    destruct (fault env (tick w) OpRead); apply not_elem_of_nil.
  - apply _approve_all_users_db_frame.
  - destruct dry_run.
    + rewrite console_attempts_nothing; [apply not_elem_of_nil|].
      apply _approve_all_users_dry_console.
    + intros Hin. apply bulk_attempts_in_work_list, elem_of_work_list in Hin.
      by destruct Hin as [_ Hin].
  - apply set_id_verification_status_db_frame.
  - rewrite set_id_verification_status_run.
    rewrite bool_decide_eq_false_2 by done.
    destruct (fault env (tick w) OpRead); apply not_elem_of_nil.
Qed.

Lemma no_second_approval_witness :
  no_insert_for 1 alice_verified (_approve_user_verification no_faults alice false alice_verified)
  ∧ no_insert_for 1 alice_verified (_approve_all_users no_faults 100 false alice_verified)
  ∧ no_insert_for 1 alice_verified (set_id_verification_status no_faults alice alice_verified).
Proof.
  apply (no_second_approval no_faults alice 100 false alice_verified).
  exists {| user_id := 1; status := "approved"; created_at := 150 |}.
  split_and!; [left|reflexivity|reflexivity|vm_compute; discriminate].
Defined.

(** In the same state the bulk run still approves bob. *)
Example bulk_run_skips_alice :
  attempted (emitted (_approve_all_users no_faults 100 false alice_verified)) = [2].
Proof. by vm_compute. Qed.


(** * Further properties of the command and of the receivers *)

(** ** Single-user approval, run twice *)

Lemma holds_valid_approval_decide earliest_date w uid :
  holds_valid_approval earliest_date w uid
  ∨ ¬ holds_valid_approval earliest_date w uid.
Proof.
  destruct (decide (filter (λ r, user_id r = uid) (approved_since earliest_date w) = []))
    as [Hnil|Hne].
  - right. by apply valid_rows_nil.
  - left. destruct (filter _ _) as [|r l] eqn:Hf; [done|].
    assert (r ∈ filter (λ r, user_id r = uid) (approved_since earliest_date w)) as Hin
      by (rewrite Hf; left).
    unfold approved_since in Hin. rewrite !list_elem_of_filter in Hin.
    exists r. tauto.
Qed.

(** X1. An account without a valid approval is approved by the single-user
    mode with one insert: the run returns normally, adds exactly the approved
    row of that account and writes the success line and the info record.
    When the new row is not older than the cutoff of a later run, that later
    run, dry or not, only reports that the user is already verified. *)
Theorem single_user_approval_is_idempotent env user w :
  fault env (tick w) OpRead = None →
  ¬ holds_valid_approval (cutoff env (tick w)) w (id user) →
  fault env (S (tick w)) (OpCreateMV (id user)) = None →
  let first := _approve_user_verification env user false w in
  outcome first = Ok tt
  ∧ verifications (final first)
    = verifications w ++ [approved_row env user (S (tick w))]
  ∧ emitted first
    = [MVCreate (approved_row env user (S (tick w))) None;
       Stdout SUCCESS ("Approved ID verification for: " +:+ username user);
       approval_logged user]
  ∧ (∀ dry_run,
       cutoff env (tick (final first)) ≤ clock env (S (tick w)) →
       fault env (tick (final first)) OpRead = None →
       _approve_user_verification env user dry_run (final first)
       = MkRun (bump (final first)) [already_verified user] (Ok tt)).
Proof.
  intros Hread Hnone Hins first. subst first.
  rewrite _approve_user_verification_run, Hread.
  apply valid_rows_nil in Hnone.
  rewrite bool_decide_eq_false_2 by (by intros ?). rewrite Hins.
  cbn [final emitted outcome]. split_and!; [done..|].
  intros dry_run Hfresh Hread'.
  rewrite _approve_user_verification_run, Hread'.
  rewrite bool_decide_eq_true_2; [done|].
  rewrite valid_rows_nil. intros Hno. apply Hno.
  exists (approved_row env user (S (tick w))). cbn [verifications].
  split_and!; [|done|done|done].
  apply elem_of_app. right. left.
Qed.

Lemma single_user_approval_is_idempotent_witness :
  verifications (final (_approve_user_verification no_faults alice false alice_stale))
  = verifications alice_stale ++ [approved_row no_faults alice 1]
  ∧ _approve_user_verification no_faults alice false
      (final (_approve_user_verification no_faults alice false alice_stale))
    = MkRun (bump (final (_approve_user_verification no_faults alice false alice_stale)))
        [already_verified alice] (Ok tt).
Proof.
  assert (¬ holds_valid_approval (cutoff no_faults (tick alice_stale)) alice_stale
              (id alice)) as Hstale.
  { apply valid_rows_nil. reflexivity. }
  split.
  - apply (single_user_approval_is_idempotent no_faults alice alice_stale);
      [reflexivity | exact Hstale | reflexivity].
  - apply (single_user_approval_is_idempotent no_faults alice alice_stale);
      [reflexivity | exact Hstale | reflexivity | by vm_compute | reflexivity].
Defined.

(** ** What the single-user mode does not catch *)

(** X2. The single-user mode catches [User.DoesNotExist] and nothing else.
    A lookup that raises any other exception ends the command with that
    exception, nothing written. And, unlike in the bulk mode, a failing
    insert is not caught: when the named account exists once, holds no valid
    approval and its insert raises an exception other than
    [User.DoesNotExist], the command ends with that exception, having added
    no row and written no line. *)
Theorem single_user_errors_propagate env all_users name batch_size w :
  name ≠ "" →
  let run dry_run :=
    handle env {| opt_all := all_users; opt_username := Some name;
                  opt_batch_size := batch_size; opt_dry_run := dry_run |} w in
  (∀ dry_run e, fault env (tick w) OpRead = Some e →
     exc_cls e ≠ UserDoesNotExist →
     run dry_run = MkRun (bump w) [] (Raise e))
  ∧ (∀ u e, fault env (tick w) OpRead = None →
     filter (λ u, username u = name) (users w) = [u] →
     fault env (S (tick w)) OpRead = None →
     ¬ holds_valid_approval (cutoff env (S (tick w))) w (id u) →
     fault env (S (S (tick w))) (OpCreateMV (id u)) = Some e →
     exc_cls e ≠ UserDoesNotExist →
     outcome (run false) = Raise e
     ∧ verifications (final (run false)) = verifications w
     ∧ emitted (run false) = [MVCreate (approved_row env u (S (S (tick w)))) (Some e)]).
Proof.
  intros Hne run. subst run. destruct name as [|c name]; [done|].
  unfold handle.
  cbn [opt_all opt_username opt_dry_run truthy default from_option Datatypes.id].
  rewrite andb_false_r. cbn [negb].
  unfold try_except, mbind, M_bind, bind. split.
  - intros dry_run e Hread Hcls. rewrite User_objects_get_run, Hread.
    by rewrite decide_False.
  - intros u e Hread Hone Hread' Hnone Hins Hcls.
    rewrite User_objects_get_run, Hread, Hone.
    rewrite _approve_user_verification_run. cbn [tick bump]. rewrite Hread'.
    assert (¬ holds_valid_approval (cutoff env (S (tick w))) (bump w) (id u)) as Hnone'
      by done.
    apply valid_rows_nil in Hnone'.
    rewrite bool_decide_eq_false_2 by (by intros ?). rewrite Hins.
    by rewrite decide_False.
Qed.

Lemma single_user_errors_propagate_witness :
  handle always_down (all_and_alice false false) two_users
  = MkRun (bump two_users) [] (Raise db_down)
  ∧ outcome (handle inserts_fail (all_and_alice false false) two_users) = Raise db_down.
Proof.
  split.
  - apply (single_user_errors_propagate always_down false "alice" 100 two_users);
      [discriminate | reflexivity | discriminate].
  - apply (proj2 (single_user_errors_propagate inserts_fail false "alice" 100 two_users
                    ltac:(discriminate)) alice db_down);
      [reflexivity | reflexivity | reflexivity | | reflexivity | discriminate].
    apply valid_rows_nil. reflexivity.
Defined.

(** ** The hook and the single-user mode *)

Lemma info_logs_app o1 o2 : info_logs (o1 ++ o2) = info_logs o1 ++ info_logs o2.
Proof. apply omap_app. Qed.

(** X9. The registration hook and the single-user mode without dry run
    apply the same rule to the database: run on the same account in the same
    state, under the same behaviour of the database layer, they attempt the
    same insert, add the same row and leave the same database; they differ
    in what they report and in that the hook never raises. *)
Theorem hook_matches_single_user_approval env user w :
  let hook := set_id_verification_status env user w in
  let command := _approve_user_verification env user false w in
  final hook = final command
  ∧ attempted (emitted hook) = attempted (emitted command)
  ∧ inserted (emitted hook) = inserted (emitted command)
  ∧ info_logs (emitted hook) = info_logs (emitted command).
Proof.
  intros hook command. subst hook command.
  rewrite set_id_verification_status_run, _approve_user_verification_run.
  destruct (fault env (tick w) OpRead); [done|].
  destruct (decide (filter (λ r, user_id r = id user)
                      (approved_since (cutoff env (tick w)) w) = [])) as [Hnil|Hne].
  - rewrite bool_decide_eq_true_2, bool_decide_eq_false_2 by (done || by intros ?).
    by destruct (fault env (S (tick w)) _).
  - by rewrite bool_decide_eq_false_2, bool_decide_eq_true_2.
Qed.

(** ** A new account *)

(** X8. When an account is created and the database layer does not fail,
    the two receivers together add exactly one profile row and, for an
    account without a valid approval, exactly one approved verification row,
    both for that account, and log the approval at info level; the user
    table is untouched and nothing is written to the console. When an
    account is merely updated, the receivers do nothing at all. *)
Theorem registration_creates_profile_and_approval env instance w :
  fault env (tick w) (OpCreateProfile (id instance)) = None →
  fault env (S (tick w)) OpRead = None →
  ¬ holds_valid_approval (cutoff env (S (tick w))) w (id instance) →
  fault env (S (S (tick w))) (OpCreateMV (id instance)) = None →
  post_save_send env instance true w
  = MkRun {| users := users w;
             verifications :=
               verifications w ++ [approved_row env instance (S (S (tick w)))];
             profiles := profiles w ++ [ {| profile_user_id := id instance |} ];
             tick := S (S (S (tick w))) |}
          [ProfileCreate {| profile_user_id := id instance |} None;
           MVCreate (approved_row env instance (S (S (tick w)))) None;
           approval_logged instance]
          (Ok tt)
  ∧ post_save_send env instance false w = MkRun w [] (Ok tt).
Proof.
  intros Hprofile Hread Hnone Hins. split; [|done].
  unfold post_save_send, mbind, M_bind, bind, sync_extended_profile,
    auto_approve_id_verification_on_registration, ExtendedUserProfile_objects_create.
  rewrite Hprofile, set_id_verification_status_run. cbn [tick]. rewrite Hread.
  match goal with |- context [bool_decide ?P] =>
    assert P as Hnil by (by apply valid_rows_nil) end.
  rewrite bool_decide_eq_true_2 by done. by rewrite Hins.
Qed.

Lemma registration_creates_profile_and_approval_witness :
  profiles (final (post_save_send no_faults alice true alice_stale))
  = [ {| profile_user_id := 1 |} ]
  ∧ verifications (final (post_save_send no_faults alice true alice_stale))
    = verifications alice_stale ++ [approved_row no_faults alice 2].
Proof.
  assert (post_save_send no_faults alice true alice_stale
          = MkRun {| users := users alice_stale;
                     verifications :=
                       verifications alice_stale ++ [approved_row no_faults alice 2];
                     profiles := profiles alice_stale ++ [ {| profile_user_id := 1 |} ];
                     tick := 3 |}
                  [ProfileCreate {| profile_user_id := 1 |} None;
                   MVCreate (approved_row no_faults alice 2) None;
                   approval_logged alice]
                  (Ok tt)) as ->; [|done].
  apply (registration_creates_profile_and_approval no_faults alice alice_stale);
    [reflexivity | reflexivity | | reflexivity].
  apply valid_rows_nil. reflexivity.
Defined.

(** ** The dry-run preview of the bulk mode *)

Lemma slice_from_start {A} (l : list A) k :
  0 ≤ k → slice l 0 k = take (Z.to_nat k) l.
Proof.
  intros Hk. rewrite <- (take_slice l 0 k) by lia. by rewrite take_0.
Qed.

Lemma for_each_print {A} (line : A → event) (body : A → unit → M unit) (xs : list A) w :
  (∀ x s w', body x s w' = MkRun w' [line x] (Ok tt)) →
  for_each xs body tt w = MkRun w (line <$> xs) (Ok tt).
Proof.
  intros Hbody. induction xs as [|x xs IH]; [done|].
  rewrite for_each_cons. unfold bind. by rewrite Hbody, IH.
Qed.

(** X3. With reads that do not raise, the dry run of the bulk mode writes
    exactly: the number of users found, the number it would approve, the
    usernames of the first ten users of the work list in its order (all of
    them when there are at most ten), and a line counting the remaining
    ones exactly when there are more than ten. With an empty work list it
    writes only that no user needs approval. *)
Theorem dry_run_preview env batch_size w :
  reads_ok env →
  let work := users_to_approve (cutoff env (tick w)) w in
  (work = [] →
   _approve_all_users env batch_size true w = MkRun (bump w) [nothing_to_do] (Ok tt))
  ∧ (work ≠ [] →
     _approve_all_users env batch_size true w
     = MkRun (bump (bump w)) (preview_lines work) (Ok tt)).
Proof.
  intros Hreads work.
  unfold _approve_all_users, earliest_allowed_verification_date, query,
    mbind, M_bind, bind.
  rewrite !Hreads. cbn [tick bump]. rewrite ?Hreads. fold work. split.
  - intros ->. done.
  - intros Hne. assert ((Z.of_nat (length work) =? 0) = false) as ->.
    { apply Z.eqb_neq. destruct work; [done|]. simpl. lia. }
    cbn [stdout_write emit tick bump]. rewrite Hreads.
    change (users_to_approve (cutoff env (tick w)) (bump w)) with work.
    rewrite (for_each_print (λ u, Stdout Plain ("  - " +:+ username u))) by done.
    rewrite slice_from_start by lia.
    unfold preview_lines. change (Z.to_nat 10) with 10%nat.
    destruct (10 <? Z.of_nat (length work)); simpl; by rewrite ?app_nil_r.
Qed.

Lemma dry_run_preview_witness :
  _approve_all_users no_faults 100 true many_users
  = MkRun (bump (bump many_users))
      (preview_lines (users_to_approve (cutoff no_faults (tick many_users)) many_users))
      (Ok tt)
  ∧ last (emitted (_approve_all_users no_faults 100 true many_users))
    = Some (Stdout Plain "  ... and 91 more").
Proof.
  split; [|by vm_compute].
  apply (dry_run_preview no_faults 100 many_users); [by intros t|].
  by vm_compute.
Defined.

(** ** Who is in the work list *)

(** X4. The work list of the bulk mode holds exactly the ids of the
    accounts that hold no approved record created at or after the cutoff:
    neither an approval older than the cutoff nor a recent record with
    another status keeps an account out of it. It is sorted by id, and it
    has no duplicates when the ids of the user table are unique. *)
Theorem work_list_selects_unverified env w :
  (∀ uid, uid ∈ work_list env w
          ↔ uid ∈ id <$> users w
            ∧ ∀ r, r ∈ verifications w → user_id r = uid →
                   status r ≠ "approved" ∨ created_at r < cutoff env (tick w))
  ∧ StronglySorted Z.le (work_list env w)
  ∧ (NoDup (id <$> users w) → NoDup (work_list env w)).
Proof.
  split_and!.
  - intros uid. rewrite elem_of_work_list. unfold holds_valid_approval.
    split; intros [Hin Hno]; (split; [done|]).
    + intros r Hr Hu.
      destruct (decide (status r = "approved")) as [Hs|Hs]; [|by left].
      right. destruct (decide (created_at r < cutoff env (tick w))) as [|Hc]; [done|].
      destruct Hno. exists r. split_and!; [done..|lia].
    + intros (r & Hr & Hu & Hs & Hc). destruct (Hno r Hr Hu); [done|lia].
  - apply order_by_id_sorted.
  - apply work_list_NoDup.
Qed.

(** ** The batches *)

Lemma range_length_ceil n step :
  0 < step → 0 ≤ n → range_length 0 n step = (n + step - 1) `div` step.
Proof.
  intros Hstep Hn. unfold range_length.
  rewrite (proj2 (Z.ltb_lt 0 step)) by done. cbn [andb].
  destruct (Z.ltb_spec 0 n) as [Hpos|Hzero].
  - replace (n + step - 1) with (n - 0 - 1 + 1 * step) by lia.
    by rewrite Z.div_add by lia.
  - rewrite (proj2 (Z.ltb_ge step 0)) by lia. cbn [andb].
    replace n with 0 by lia. symmetry. apply Z.div_small. lia.
Qed.

(** X6. For a positive batch size, the slices that the bulk mode takes at
    the indices of [range(0, len(user_ids), batch_size)] are consecutive
    pieces of the list of ids: their concatenation is the list, none of them
    is empty, none is longer than the batch size, and there are
    [ceil(len(user_ids) / batch_size)] of them, one re-fetch query each. *)
Theorem batches_partition_the_ids (user_ids : list Z) batch_size w :
  0 < batch_size →
  let n := Z.of_nat (length user_ids) in
  let batches := (λ i, slice user_ids i (i + batch_size)) <$> batch_starts n batch_size in
  range 0 n batch_size w = MkRun w [] (Ok (batch_starts n batch_size))
  ∧ concat batches = user_ids
  ∧ Forall (λ b, b ≠ [] ∧ Z.of_nat (length b) ≤ batch_size) batches
  ∧ Z.of_nat (length batches) = (n + batch_size - 1) `div` batch_size.
Proof.
  intros Hbs n batches. subst batches.
  destruct (range_length_covers n batch_size Hbs ltac:(lia)) as [Hlen0 Hcover].
  split_and!.
  - unfold range. by rewrite (proj2 (Z.eqb_neq batch_size 0)) by lia.
  - rewrite concat_fmap_bind. by apply slices_cover.
  - apply Forall_fmap, Forall_forall. intros i Hi. unfold batch_starts in Hi.
    apply list_elem_of_fmap in Hi as (k & -> & Hk). apply elem_of_seqZ in Hk.
    pose proof (range_length_ceil n batch_size Hbs ltac:(lia)) as Hceil.
    assert (k * batch_size < n) as Hlt.
    { destruct (Z.ltb_spec 0 n) as [Hpos|Hzero].
      - unfold range_length in Hk.
        rewrite (proj2 (Z.ltb_lt 0 batch_size)), (proj2 (Z.ltb_lt 0 n)) in Hk by done.
        cbn [andb] in Hk.
        pose proof (Z.mul_div_le (n - 0 - 1) batch_size Hbs). nia.
      - rewrite Hceil in Hk. replace n with 0 in Hk by lia.
        rewrite Z.div_small in Hk by lia. lia. }
    cbn beta. assert (length (slice user_ids (0 + k * batch_size)
                                (0 + k * batch_size + batch_size))
                      = Z.to_nat (Z.min (k * batch_size + batch_size) n - k * batch_size))
      as Hslice.
    { unfold slice, slice_index. fold n.
      rewrite !(proj2 (Z.ltb_ge _ 0)) by lia.
      rewrite length_take, length_drop. subst n. lia. }
    split; [|lia].
    intros Hnil. rewrite Hnil in Hslice. simpl in Hslice. lia.
  - rewrite length_fmap. unfold batch_starts.
    rewrite length_fmap, length_seqZ, Z2Nat.id by lia.
    apply range_length_ceil; lia.
Qed.

Lemma batches_partition_the_ids_witness :
  (λ i, slice [3; 5; 8; 9; 12] i (i + 2)) <$> batch_starts 5 2
  = [[3; 5]; [8; 9]; [12]]
  ∧ Z.of_nat (length ((λ i, slice [3; 5; 8; 9; 12] i (i + 2)) <$> batch_starts 5 2))
    = (5 + 2 - 1) `div` 2.
Proof.
  split; [by vm_compute|].
  apply (batches_partition_the_ids [3; 5; 8; 9; 12] 2 two_users). lia.
Defined.

Lemma work_list_selects_unverified_witness :
  1 ∈ work_list no_faults alice_stale ∧ NoDup (work_list no_faults alice_stale).
Proof.
  split.
  - apply (work_list_selects_unverified no_faults alice_stale). split; [compute_done|].
    intros r Hr Hu. apply Forall_forall with (x := r) (l := verifications alice_stale);
      [|done].
    apply Forall_cons; split; [right; simpl; lia|].
    apply Forall_cons; split; [left; discriminate|constructor].
  - apply (work_list_selects_unverified no_faults alice_stale). compute_done.
Defined.

(** ** Tables only grow *)

Lemma handle_command_write env options : emits command_write (handle env options).
Proof.
  unfold handle, _approve_user_verification, _approve_all_users, range, process_batch.
  frame; try done; auto using User_objects_get_silent.
  match goal with |- emits _ (approve_in_batch _ _ _ ?c) => destruct c end.
  unfold approve_in_batch. frame; done.
Qed.

Lemma post_save_send_db_frame env instance created :
  db_frame (post_save_send env instance created).
Proof.
  unfold post_save_send, sync_extended_profile,
    auto_approve_id_verification_on_registration.
  frame. apply set_id_verification_status_db_frame.
Qed.

Lemma post_save_send_receiver_write env instance created :
  emits (receiver_write instance) (post_save_send env instance created).
Proof.
  unfold post_save_send, sync_extended_profile,
    auto_approve_id_verification_on_registration, set_id_verification_status.
  frame; try done.
  intros w. unfold ExtendedUserProfile_objects_create.
  destruct (fault env (tick w) _); by repeat constructor.
Qed.

Lemma command_write_inserted out :
  Forall command_write out →
  Forall (λ row, status row = "approved") (inserted out) ∧ profiles_inserted out = [].
Proof.
  induction 1 as [|ev out Hev _ [IH1 IH2]]; [by split|].
  destruct ev as [| |row [e|]|]; simpl in *; auto. done.
Qed.

Lemma receiver_write_inserted instance out :
  Forall (receiver_write instance) out →
  Forall (λ row, status row = "approved" ∧ user_id row = id instance) (inserted out)
  ∧ Forall (λ row, profile_user_id row = id instance) (profiles_inserted out).
Proof.
  induction 1 as [|ev out Hev _ [IH1 IH2]]; [by split|].
  destruct ev as [| |row [e|]|row [e|]]; simpl in *; auto.
Qed.

(** X7. Neither the command nor the receivers ever change or remove a row:
    whatever the options, the event and the behaviour of the database layer,
    the user table is left as it was and the other tables keep their rows
    and only grow at the end. The command adds only verification rows with
    status ["approved"] and never touches the profile table; the receivers
    add only rows of the saved account. *)
Theorem tables_only_grow env options instance created w :
  let command := handle env options w in
  let receivers := post_save_send env instance created w in
  (users (final command) = users w
   ∧ profiles (final command) = profiles w
   ∧ ∃ new, verifications (final command) = verifications w ++ new
            ∧ Forall (λ row, status row = "approved") new)
  ∧ (users (final receivers) = users w
     ∧ (∃ new, verifications (final receivers) = verifications w ++ new
               ∧ Forall (λ row, status row = "approved" ∧ user_id row = id instance) new)
     ∧ (∃ new, profiles (final receivers) = profiles w ++ new
               ∧ Forall (λ row, profile_user_id row = id instance) new)).
Proof.
  intros command receivers. subst command receivers. split.
  - destruct (handle_db_frame env options w) as (Hu & Hv & Hp).
    destruct (command_write_inserted _ (handle_command_write env options w))
      as [Happroved Hnone].
    rewrite Hnone, app_nil_r in Hp. split_and!; [done..|].
    by exists (inserted (emitted (handle env options w))).
  - destruct (post_save_send_db_frame env instance created w) as (Hu & Hv & Hp).
    destruct (receiver_write_inserted instance _
                (post_save_send_receiver_write env instance created w)) as [H1 H2].
    split_and!; [done| |].
    + by exists (inserted (emitted (post_save_send env instance created w))).
    + by exists (profiles_inserted (emitted (post_save_send env instance created w))).
Qed.

(** ** What is logged at info level *)

Lemma not_info_logs out : Forall not_info out → info_logs out = [].
Proof.
  induction 1 as [|ev out Hev _ IH]; [done|].
  destruct ev as [|[|]| |]; done.
Qed.

Lemma _approve_all_users_not_info env batch_size dry_run :
  emits not_info (_approve_all_users env batch_size dry_run).
Proof.
  unfold _approve_all_users, range, process_batch. frame; try done.
  match goal with |- emits _ (approve_in_batch _ _ _ ?c) => destruct c end.
  unfold approve_in_batch. frame; done.
Qed.

(** X10. An approval made by the single-user mode or by the registration
    hook is logged at info level, once per row added and naming the user; an
    approval made by the bulk mode is not: a bulk run logs nothing at info
    level, however many rows it adds. *)
Theorem only_single_approvals_are_logged env user batch_size dry_run w :
  info_logs (emitted (_approve_user_verification env user dry_run w))
  = (λ _, "ManualVerification approved for: " +:+ username user)
    <$> inserted (emitted (_approve_user_verification env user dry_run w))
  ∧ info_logs (emitted (set_id_verification_status env user w))
    = (λ _, "ManualVerification approved for: " +:+ username user)
      <$> inserted (emitted (set_id_verification_status env user w))
  ∧ info_logs (emitted (_approve_all_users env batch_size dry_run w)) = [].
Proof.
  split_and!.
  - rewrite _approve_user_verification_run. by repeat case_match.
  - rewrite set_id_verification_status_run. by repeat case_match.
  - apply not_info_logs, _approve_all_users_not_info.
Qed.

(** ** Running the bulk mode again *)

Lemma emits_mv_create_recorded env user :
  emits (recorded env) (ManualVerification_objects_create env user "approved").
Proof.
  intros w. unfold ManualVerification_objects_create.
  destruct (fault env (tick w) _) eqn:Hfault; repeat constructor;
    exists (tick w); by split.
Qed.

#[export] Hint Resolve emits_mv_create_recorded : frame.

Lemma _approve_all_users_recorded env batch_size dry_run :
  emits (recorded env) (_approve_all_users env batch_size dry_run).
Proof.
  unfold _approve_all_users, range, process_batch. frame; try done.
  match goal with |- emits _ (approve_in_batch _ _ _ ?c) => destruct c end.
  unfold approve_in_batch. frame; done.
Qed.

Lemma recorded_inserted env out row :
  Forall (recorded env) out → row ∈ inserted out →
  status row = "approved" ∧ ∃ t, created_at row = clock env t.
Proof.
  induction 1 as [|ev out Hev _ IH]; intros Hin.
  - by apply not_elem_of_nil in Hin.
  - destruct ev as [| |row' [e|]|]; simpl in *; auto.
    apply elem_of_cons in Hin as [->|Hin]; [|auto].
    destruct Hev as (Hs & t & Ht & _). eauto.
Qed.

(** Validity after a run that added the rows [new], all of them approved
    and stamped at or after the cutoff. *)
Lemma holds_valid_approval_app earliest_date w w' new uid :
  verifications w' = verifications w ++ new →
  (∀ row, row ∈ new → status row = "approved" ∧ earliest_date ≤ created_at row) →
  holds_valid_approval earliest_date w' uid
  ↔ holds_valid_approval earliest_date w uid ∨ uid ∈ user_id <$> new.
Proof.
  intros Hv Hnew. unfold holds_valid_approval. rewrite Hv. split.
  - intros (r & Hin & Hu & Hs & Hc). apply elem_of_app in Hin as [Hin|Hin].
    + left. eauto 6.
    + right. rewrite <- Hu. by apply list_elem_of_fmap_2.
  - intros [(r & Hin & Hu & Hs & Hc)|Hin].
    + exists r. rewrite elem_of_app. auto.
    + apply list_elem_of_fmap in Hin as (r & -> & Hin).
      destruct (Hnew r Hin). exists r. rewrite elem_of_app. auto.
Qed.

(** X5. Running the bulk mode again retries exactly the users whose insert
    failed. After a bulk run without dry run (positive batch size, unique
    user ids, reads that do not raise), when the cutoff has not moved and
    new rows are stamped at or after it, the work list of the next run holds
    exactly the ids whose insert raised in the first run; when none raised,
    the next run finds nothing to do, whatever its batch size. *)
Theorem rerun_retries_failed_inserts env batch_size batch_size' w :
  0 < batch_size → reads_ok env → NoDup (id <$> users w) →
  let first := _approve_all_users env batch_size false w in
  cutoff env (tick (final first)) = cutoff env (tick w) →
  (∀ t, cutoff env (tick w) ≤ clock env t) →
  (∀ uid, uid ∈ work_list env (final first) ↔ uid ∈ failed_ids (emitted first))
  ∧ (failed_ids (emitted first) = [] →
     _approve_all_users env batch_size' false (final first)
     = MkRun (bump (final first)) [nothing_to_do] (Ok tt)).
Proof.
  intros Hbs Hreads Hnd first Hcutoff Hclock. subst first.
  set (first := _approve_all_users env batch_size false w) in *.
  destruct (_approve_all_users_db_frame env batch_size false w) as (Hu & Hv & _).
  fold first in Hu, Hv.
  pose proof (bulk_visited_Permutation env batch_size w Hbs Hreads Hnd) as Hperm.
  fold first in Hperm.
  pose proof (attempted_split (emitted first)) as Hsplit.
  pose proof (_approve_all_users_recorded env batch_size false w) as Hrec.
  fold first in Hrec.
  assert (NoDup ((user_id <$> inserted (emitted first)) ++ failed_ids (emitted first)))
    as Hdisjoint.
  { rewrite <- Hsplit, Hperm. by apply work_list_NoDup. }
  apply NoDup_app in Hdisjoint as (_ & Hdisjoint & _).
  assert (∀ uid, uid ∈ work_list env (final first) ↔ uid ∈ failed_ids (emitted first))
    as Hretry.
  { intros uid. rewrite elem_of_work_list, Hu, Hcutoff.
    rewrite (holds_valid_approval_app _ w (final first) (inserted (emitted first)) uid Hv).
    2:{ intros row Hrow.
        destruct (recorded_inserted env _ row Hrec Hrow) as (Hs & t & Ht).
        split; [done|]. rewrite Ht. apply Hclock. }
    pose proof (elem_of_work_list env w uid) as Hwork.
    rewrite <- Hperm, Hsplit, elem_of_app in Hwork.
    destruct (holds_valid_approval_decide (cutoff env (tick w)) w uid);
      specialize (Hdisjoint uid); tauto. }
  split; [done|].
  intros Hnone. apply bulk_run_empty; [done|].
  apply elem_of_nil_inv. intros uid. rewrite Hretry, Hnone. apply not_elem_of_nil.
Qed.

Lemma rerun_retries_failed_inserts_witness :
  work_list bob_insert_fails (final (_approve_all_users bob_insert_fails 1 false two_users))
  = [2]
  ∧ _approve_all_users no_faults 7 false
      (final (_approve_all_users no_faults 1 false two_users))
    = MkRun (bump (final (_approve_all_users no_faults 1 false two_users)))
        [nothing_to_do] (Ok tt).
Proof.
  split; [by vm_compute|].
  apply (rerun_retries_failed_inserts no_faults 1 7 two_users);
    [lia | by intros t | compute_done | reflexivity | intros t; simpl; lia
     | by vm_compute].
Defined.

(** ** The database calls of a bulk run *)

Lemma batch_users_ticks env total_users batch_users : ∀ counts w,
  tick (final (for_each batch_users (approve_in_batch env total_users) counts w))
  = (tick w + length batch_users)%nat.
Proof.
  induction batch_users as [|u us IH]; intros [a e] w; [simpl; lia|].
  rewrite for_each_cons. unfold bind. rewrite approve_in_batch_run.
  destruct (fault env (tick w) _) as [x|];
    match goal with |- context [for_each us _ ?s ?w1] =>
      pose proof (IH s w1) as Ht; destruct (for_each us _ s w1) as [w2 out2 r2] end;
    simpl in *; lia.
Qed.

Lemma batches_ticks env total_users batch_size user_ids starts : ∀ counts w,
  reads_ok env →
  tick (final (for_each starts (process_batch env user_ids batch_size total_users)
                 counts w))
  = (tick w + length starts
     + length (attempted (emitted (for_each starts
                 (process_batch env user_ids batch_size total_users) counts w))))%nat.
Proof.
  induction starts as [|i starts IH]; intros counts w Hreads; [simpl; lia|].
  rewrite !for_each_cons. unfold bind. rewrite process_batch_run, Hreads.
  destruct (batch_users_attempted env total_users
              (batch_users_at batch_size user_ids w i) counts (bump w))
    as (c1 & Hc1 & Ha1 & _).
  pose proof (batch_users_ticks env total_users
                (batch_users_at batch_size user_ids w i) counts (bump w)) as Ht1.
  destruct (for_each (batch_users_at batch_size user_ids w i) _ _ _) as [w1 out1 r1].
  simpl in *. subst r1. specialize (IH c1 w1 Hreads).
  destruct (for_each starts _ c1 w1) as [w2 out2 r2]. simpl in *.
  rewrite attempted_app, length_app, Ha1, length_fmap. lia.
Qed.

(** X12. A bulk run without dry run over a non-empty work list (positive
    batch size, unique user ids, reads that do not raise) makes exactly
    [2 + ceil(n / batch_size) + n] calls to the database layer, [n] being
    the size of the work list: the count, the list of ids, one re-fetch per
    batch and one insert per user, whether or not the insert fails. *)
Theorem bulk_run_database_calls env batch_size w :
  0 < batch_size → reads_ok env → NoDup (id <$> users w) →
  work_list env w ≠ [] →
  let n := Z.of_nat (length (work_list env w)) in
  Z.of_nat (tick (final (_approve_all_users env batch_size false w)))
  = Z.of_nat (tick w) + 2 + (n + batch_size - 1) `div` batch_size + n.
Proof.
  intros Hbs Hreads Hnd Hne n.
  pose proof (bulk_visited_Permutation env batch_size w Hbs Hreads Hnd) as Hperm.
  apply Permutation_length in Hperm. revert Hperm.
  pose proof (_approve_all_users_run env batch_size w) as Hrun. simpl in Hrun.
  rewrite !Hreads in Hrun. rewrite length_fmap, <- work_list_length in Hrun.
  fold n in Hrun. fold (work_list env w) in Hrun.
  fold (batch_starts n batch_size) in Hrun.
  assert ((n =? 0) = false) as Hn.
  { apply Z.eqb_neq. subst n. destruct (work_list env w); [done|]. simpl. lia. }
  rewrite Hn, (proj2 (Z.eqb_neq batch_size 0)) in Hrun by lia. rewrite Hrun. clear Hrun.
  pose proof (batches_ticks env n batch_size (work_list env w)
                (batch_starts n batch_size) (0, 0) (bump (bump w)) Hreads) as Hticks.
  destruct (batches_attempted env n batch_size (work_list env w)
              (batch_starts n batch_size) (0, 0) (bump (bump w))) as (_ & _ & Hok).
  destruct (Hok Hreads) as [[a e] Hc].
  destruct (for_each _ _ _ _) as [w' out r]. simpl in Hc. subst r.
  cbn [final emitted tick bump] in *.
  fold (trailing_progress a n). rewrite attempted_bulk_output. intros Hlen.
  rewrite Hticks, Hlen.
  assert (Z.of_nat (length (batch_starts n batch_size))
          = (n + batch_size - 1) `div` batch_size) as Hbatches.
  { unfold batch_starts.
    destruct (range_length_covers n batch_size Hbs ltac:(lia)) as [Hlen0 _].
    rewrite length_fmap, length_seqZ, Z2Nat.id by lia.
    apply range_length_ceil; lia. }
  subst n. lia.
Qed.

Lemma bulk_run_database_calls_witness :
  Z.of_nat (tick (final (_approve_all_users bob_insert_fails 20 false fifty_one_users)))
  = 0 + 2 + 3 + 51.
Proof.
  apply (bulk_run_database_calls bob_insert_fails 20 fifty_one_users);
    [lia | by intros t | compute_done | by vm_compute].
Defined.

(** ** Failed inserts of a bulk run *)







(** ** A dry run, then the real run *)


